(** * HomeOps: the procedural cityscape renderer [create_cyberpunk_art.py]

    A shallow embedding of [create_cyberpunk_city] and of the script's entry
    point, and the properties of the drawing pipeline: colour ranges, the
    geometry of buildings, windows and neon signs, the use of the random
    generator, and what is left on disk when the script fails.

    The Python runtime pieces the script relies on are modelled first:
    binary64 floats (the kernel's primitive floats), [int()], true division,
    [range], exceptions, the [random] module read from a tape of raw outputs,
    and Pillow's [ImageDraw] calls recorded per image and replayed on a
    pixel map. *)

From Stdlib Require Import String Ascii.
From Stdlib Require Import ZArith List Lia Bool FinFun.
From Stdlib Require Import Floats Uint63.
Import ListNotations.

Set Warnings "-inexact-float".
Open Scope Z_scope.

(* ================================================================== *)
(** ** Python runtime *)
(* ================================================================== *)

Module Py.

(** Exceptions the script can meet, each with its message. *)
Inductive exn : Type :=
| ValueError (msg : string)
| ZeroDivisionError (msg : string)
| OverflowError (msg : string)
| IndexError (msg : string)
| OSError (msg : string).

(** [str(e)] *)
Definition str (e : exn) : string :=
  match e with
  | ValueError m | ZeroDivisionError m | OverflowError m
  | IndexError m | OSError m => m
  end.

Inductive outcome (A : Type) : Type :=
| Ok (a : A)
| Raise (e : exn).
Arguments Ok {A} a.
Arguments Raise {A} e.

(** A computation over a mutable state [S] that may raise. Whatever was
    written to the state before an exception stays written. *)
Definition ST (S A : Type) : Type := S -> outcome A * S.

Definition ret {S A} (a : A) : ST S A := fun s => (Ok a, s).

Definition bind {S A B} (m : ST S A) (f : A -> ST S B) : ST S B :=
  fun s => match m s with
           | (Ok a, s') => f a s'
           | (Raise e, s') => (Raise e, s')
           end.

Definition raise {S A} (e : exn) : ST S A := fun s => (Raise e, s).

(** [try: m except Exception as e: h e] *)
Definition try_except {S A} (m : ST S A) (h : exn -> ST S A) : ST S A :=
  fun s => match m s with
           | (Ok a, s') => (Ok a, s')
           | (Raise e, s') => h e s'
           end.

Definition modify {S} (f : S -> S) : ST S unit := fun s => (Ok tt, f s).

(** [for x in xs: body x] *)
Fixpoint for_each {S A} (xs : list A) (body : A -> ST S unit) : ST S unit :=
  match xs with
  | [] => ret tt
  | x :: rest => bind (body x) (fun _ => for_each rest body)
  end.

(** [range(n)] and [range(start, stop, step)] for a non-zero step. *)
Definition range (n : Z) : list Z :=
  map Z.of_nat (seq 0 (Z.to_nat n)).

Definition range3 (start stop step : Z) : list Z :=
  let n := if 0 <? step then (stop - start + step - 1) / step
           else (start - stop - step - 1) / (- step) in
  map (fun i => start + Z.of_nat i * step) (seq 0 (Z.to_nat n)).

(** *** Floats *)

(** [float(z)]; exact for |z| < 2^53, which covers every integer the script
    converts. *)
Definition float_of_int (z : Z) : float :=
  if z <? 0 then PrimFloat.opp (PrimFloat.of_uint63 (Uint63.of_Z (- z)))
  else PrimFloat.of_uint63 (Uint63.of_Z z).

(** [a / b] on two ints: the correctly rounded quotient. *)
Definition truediv {S} (a b : Z) : ST S float :=
  if b =? 0 then raise (ZeroDivisionError "division by zero")
  else ret (PrimFloat.div (float_of_int a) (float_of_int b)).

(** The integer part of a finite float, towards zero. *)
Definition trunc_finite (s : bool) (m : positive) (e : Z) : Z :=
  let mag := match e with
             | Z0 => Zpos m
             | Zpos p => Z.shiftl (Zpos m) (Zpos p)
             | Zneg p => Z.shiftr (Zpos m) (Zpos p)
             end in
  if s then - mag else mag.

Definition trunc (f : float) : Z + exn :=
  match Prim2SF f with
  | S754_zero _ => inl 0
  | S754_finite s m e => inl (trunc_finite s m e)
  | S754_infinity _ =>
      inr (OverflowError "cannot convert float infinity to integer")
  | S754_nan => inr (ValueError "cannot convert float NaN to integer")
  end.

(** [int(f)] *)
Definition int {S} (f : float) : ST S Z :=
  match trunc f with
  | inl z => ret z
  | inr e => raise e
  end.

End Py.
Import Py.

Declare Scope py_scope.
Delimit Scope py_scope with py.
Notation "x <- m ;; k" := (bind m (fun x => k))
  (at level 61, m at next level, right associativity) : py_scope.
Notation "m ;; k" := (bind m (fun _ => k))
  (at level 61, right associativity) : py_scope.
Open Scope py_scope.

(* ================================================================== *)
(** ** Pillow: images and ImageDraw *)
(* ================================================================== *)

(** An 8-bit pixel. An RGB image is held with [alpha = 255], which is
    what [convert('RGBA')] makes of it. *)
Record pixel : Type := mk_pixel { red : Z; green : Z; blue : Z; alpha : Z }.

(** An RGB tuple of the script, and the pixel it inks. *)
Definition color : Type := (Z * Z * Z)%type.
Definition opaque (c : color) : pixel :=
  let '(r, g, b) := c in mk_pixel r g b 255.

(** An image: its size and the pixel at each coordinate. Only coordinates
    with [0 <= x < width] and [0 <= y < height] belong to the image. *)
Record image : Type :=
  mk_image { im_width : Z; im_height : Z; im_pixel : Z -> Z -> pixel }.

Definition inside (im : image) (x y : Z) : bool :=
  (0 <=? x) && (x <? im_width im) && (0 <=? y) && (y <? im_height im).

(** [Image.new(mode, (width, height), fill)] *)
Definition image_new (width height : Z) (fill : pixel) : image :=
  mk_image width height (fun _ _ => fill).

(** One call on an [ImageDraw] object. Boxes are [x0, y0, x1, y1] with both
    corners included, as Pillow takes them. *)
Inductive draw_call : Type :=
| Line (x0 y0 x1 y1 : Z) (fill : pixel) (width : Z)
| Rectangle (x0 y0 x1 y1 : Z) (fill : pixel)
| Outline (x0 y0 x1 y1 : Z) (outline : pixel) (width : Z)
| Ellipse (x0 y0 x1 y1 : Z) (fill : pixel).

Definition ink (d : draw_call) : pixel :=
  match d with
  | Line _ _ _ _ c _ | Rectangle _ _ _ _ c
  | Outline _ _ _ _ c _ | Ellipse _ _ _ _ c => c
  end.

Definition in_box (x0 y0 x1 y1 x y : Z) : bool :=
  (x0 <=? x) && (x <=? x1) && (y0 <=? y) && (y <=? y1).

(** What the script takes from Pillow without saying how it is done: the
    pixels of a filled ellipse and of a slanted one-pixel line, and the two
    filters. The filters return 8-bit images of the size they are given. *)
Definition byte_range (v : Z) : Prop := 0 <= v <= 255.

Definition pixel_ok (p : pixel) : Prop :=
  byte_range (red p) /\ byte_range (green p) /\
  byte_range (blue p) /\ byte_range (alpha p).

Definition image_ok (im : image) : Prop :=
  forall x y, inside im x y = true -> pixel_ok (im_pixel im x y).

Definition same_size (a b : image) : Prop :=
  im_width a = im_width b /\ im_height a = im_height b.

Class Pillow : Type := {
  ellipse_covers : Z -> Z -> Z -> Z -> Z -> Z -> bool;
  line_covers : Z -> Z -> Z -> Z -> Z -> Z -> bool;
  gaussian_blur : float -> image -> image;
  unsharp_mask : Z -> Z -> Z -> image -> image;
  gaussian_blur_size : forall r im, same_size (gaussian_blur r im) im;
  gaussian_blur_ok : forall r im, image_ok im -> image_ok (gaussian_blur r im);
  unsharp_mask_size : forall r p t im, same_size (unsharp_mask r p t im) im;
  unsharp_mask_ok :
    forall r p t im, image_ok im -> image_ok (unsharp_mask r p t im)
}.

Section Drawing.
Context {P : Pillow}.

(** The pixels a call inks, before clipping to the image. A horizontal line
    is the span between its ends; an outline of width [w] is the band of
    [w] pixels inside the box's border. *)
Definition covers (d : draw_call) (x y : Z) : bool :=
  match d with
  | Line x0 y0 x1 y1 _ _ =>
      if y0 =? y1
      then (y =? y0) && (Z.min x0 x1 <=? x) && (x <=? Z.max x0 x1)
      else line_covers x0 y0 x1 y1 x y
  | Rectangle x0 y0 x1 y1 _ => in_box x0 y0 x1 y1 x y
  | Outline x0 y0 x1 y1 _ w =>
      in_box x0 y0 x1 y1 x y &&
      ((x <? x0 + w) || (x1 - w <? x) || (y <? y0 + w) || (y1 - w <? y))
  | Ellipse x0 y0 x1 y1 _ => ellipse_covers x0 y0 x1 y1 x y
  end.

(** A call replaces the pixels it covers that lie inside the image; what
    falls outside is dropped and the size never changes. *)
Definition draw_on (im : image) (d : draw_call) : image :=
  mk_image (im_width im) (im_height im)
    (fun x y => if inside im x y && covers d x y then ink d
                else im_pixel im x y).

Definition paint (im : image) (calls : list draw_call) : image :=
  fold_left draw_on calls im.

End Drawing.

(** Modelled from the spec: [Image.alpha_composite] is Pillow's; the spec
    gives it as standard "over" compositing, result = overlay * a + base *
    (1 - a) per channel, rounded to the nearest integer, with the overlay's
    8-bit alpha read as a / 255. The base is opaque, so is the result. *)
Definition over (o a b : Z) : Z := (o * a + b * (255 - a) + 127) / 255.

Definition composite_pixel (base top : pixel) : pixel :=
  mk_pixel (over (red top) (alpha top) (red base))
           (over (green top) (alpha top) (green base))
           (over (blue top) (alpha top) (blue base))
           255.

Definition alpha_composite (base top : image) : image :=
  mk_image (im_width base) (im_height base)
    (fun x y => composite_pixel (im_pixel base x y) (im_pixel top x y)).

(* ================================================================== *)
(** ** The random module and the painter's state *)
(* ================================================================== *)

(** The two [ImageDraw] objects of the script. *)
Inductive layer : Type := draw | glow_draw.

Definition layer_eqb (a b : layer) : bool :=
  match a, b with
  | draw, draw | glow_draw, glow_draw => true
  | _, _ => false
  end.

(** The state the drawing stages work on: the process-wide generator, read
    as the stream of raw outputs it is going to deliver, and the calls
    issued so far, oldest first, each with the [ImageDraw] it was made on. *)
Record painter : Type := mk_painter {
  rng : nat -> Z;
  calls : list (layer * draw_call)
}.

Definition issue (l : layer) (d : draw_call) : ST painter unit :=
  modify (fun s => mk_painter (rng s) (calls s ++ [(l, d)])).

(** The calls made on one of the two [ImageDraw] objects. *)
Definition on_layer (l : layer) (cs : list (layer * draw_call))
  : list draw_call :=
  map snd (filter (fun c => layer_eqb l (fst c)) cs).

Definition img_calls (s : painter) : list draw_call := on_layer draw (calls s).
Definition glow_calls (s : painter) : list draw_call :=
  on_layer glow_draw (calls s).

(** [d.line([(x0, y0), (x1, y1)], fill, width)] and the like. *)
Definition line (l : layer) (p0 p1 : Z * Z) (fill : pixel) (width : Z)
  : ST painter unit :=
  issue l (Line (fst p0) (snd p0) (fst p1) (snd p1) fill width).

Definition rectangle (l : layer) (box : Z * Z * Z * Z) (fill : pixel)
  : ST painter unit :=
  let '(x0, y0, x1, y1) := box in issue l (Rectangle x0 y0 x1 y1 fill).

Definition rectangle_outline (l : layer) (box : Z * Z * Z * Z)
  (outline : pixel) (width : Z) : ST painter unit :=
  let '(x0, y0, x1, y1) := box in issue l (Outline x0 y0 x1 y1 outline width).

Definition ellipse (l : layer) (box : Z * Z * Z * Z) (fill : pixel)
  : ST painter unit :=
  let '(x0, y0, x1, y1) := box in issue l (Ellipse x0 y0 x1 y1 fill).

Module Random.

(** The next raw output of the generator. *)
Definition next_raw : ST painter Z :=
  fun s => (Ok (rng s 0%nat), mk_painter (fun n => rng s (S n)) (calls s)).

(** [random.randint(a, b)]: an integer of [a..b], both ends included. *)
Definition randint (a b : Z) : ST painter Z :=
  if b <? a then raise (ValueError "empty range for randrange()")
  else n <- next_raw ;; ret (a + n mod (b - a + 1)).

(** [random.choice(xs)] *)
Definition choice {A} (xs : list A) : ST painter A :=
  match xs with
  | [] => raise (IndexError "Cannot choose from an empty sequence")
  | d :: _ =>
      n <- next_raw ;;
      ret (nth (Z.to_nat (n mod Z.of_nat (List.length xs))) xs d)
  end.

(** [random.random()] is the float k / 2^53 for an integer k of
    [0, 2^53); the model returns k. *)
Definition random : ST painter Z :=
  n <- next_raw ;; ret (n mod 2 ^ 53).

(** [u > 0.3] for [u = k / 2^53]. The literal 0.3 is the double
    5404319552844595 / 2^54 and both sides are exact, so the comparison of
    the floats is the comparison of the numerators over 2^54. *)
Definition gt_0_3 (k : Z) : bool := 5404319552844595 <? 2 * k.

End Random.
Import Random.

(* ================================================================== *)
(** ** create_cyberpunk_city: the drawing stages *)
(* ================================================================== *)

(** [tuple(int(f(c)) for c in col)] *)
Definition tuple_int (f : Z -> float) (col : color) : ST painter color :=
  let '(r, g, b) := col in
  r' <- int (f r) ;;
  g' <- int (f g) ;;
  b' <- int (f b) ;;
  ret (r', g', b').

(** Create gradient background (sunset effect) *)
Definition gradient_row (width height y : Z) : ST painter unit :=
  q <- truediv y height ;;
  purple <- int (60 * (1 - q))%float ;;
  q' <- truediv y height ;;
  blue <- int (30 + 40 * q')%float ;;
  let color := (purple + 20, 10, blue) in
  line draw (0, y) (width, y) (opaque color) 0.

Definition gradient (width height : Z) : ST painter unit :=
  for_each (range height) (gradient_row width height).

(** Neon colors of the windows *)
Definition neon_colors : list color :=
  [ (0, 255, 255);    (* Cyan *)
    (255, 0, 255);    (* Magenta *)
    (255, 255, 0);    (* Yellow *)
    (0, 255, 100);    (* Green *)
    (255, 100, 0);    (* Orange *)
    (100, 100, 255)   (* Light blue *) ].

(** One cell of a building's window grid. *)
Definition window_cell (bx by_ row col : Z) : ST painter unit :=
  u <- random ;;
  if gt_0_3 u then
    let wx := bx + col * 15 + 5 in
    let wy := by_ + row * 20 + 5 in
    color <- choice neon_colors ;;
    rectangle draw (wx, wy, wx + 8, wy + 12) (opaque color)
  else ret tt.

(** Add neon windows *)
Definition windows (bx by_ bw bh : Z) : ST painter unit :=
  let window_rows := bh / 20 in
  let window_cols := bw / 15 in
  for_each (range window_rows) (fun row =>
    for_each (range window_cols) (fun col =>
      window_cell bx by_ row col)).

Definition skyscraper (width height : Z) : ST painter unit :=
  bx <- randint 0 (width - 80) ;;
  by_ <- randint (height / 3) (height - 50) ;;
  bw <- randint 30 80 ;;
  let bh := height - by_ in
  r <- randint 10 30 ;;
  g <- randint 10 30 ;;
  b <- randint 10 30 ;;
  let base_color := (r, g, b) in
  rectangle draw (bx, by_, bx + bw, by_ + bh) (opaque base_color) ;;
  windows bx by_ bw bh.

(** Draw skyscrapers *)
Definition building_count : Z := 15.

Definition skyscrapers (width height : Z) : ST painter unit :=
  for_each (range building_count) (fun _ => skyscraper width height).

Definition car_colors : list color :=
  [(255, 0, 255); (0, 255, 255); (255, 255, 0)].

(** One segment of a light trail *)
Definition trail_segment (cx cy : Z) (car_color : color)
  (trail_length j : Z) : ST painter unit :=
  q <- truediv j trail_length ;;
  let alpha := (1 - q)%float in
  trail_color <-
    tuple_int (fun c => (float_of_int c * alpha * 0.5)%float) car_color ;;
  ellipse draw (cx - j - 1, cy - 1, cx - j + 1, cy + 1) (opaque trail_color).

Definition flying_car (width height : Z) : ST painter unit :=
  cx <- randint 0 width ;;
  cy <- randint (height / 4) (height / 2) ;;
  car_color <- choice car_colors ;;
  ellipse draw (cx - 3, cy - 2, cx + 3, cy + 2) (opaque car_color) ;;
  trail_length <- randint 15 30 ;;
  for_each (range trail_length) (trail_segment cx cy car_color trail_length).

(** Add flying cars (small glowing dots moving across) *)
Definition car_count : Z := 8.

Definition flying_cars (width height : Z) : ST painter unit :=
  for_each (range car_count) (fun _ => flying_car width height).

(** One ring of the glow drawn over a sign *)
Definition sign_ring (sx sy : Z) (sign_color : color) (glow : Z)
  : ST painter unit :=
  glow_color <-
    tuple_int (fun c => (float_of_int c * (0.8 - float_of_int glow * 0.2))%float)
              sign_color ;;
  rectangle_outline draw (sx - glow, sy - glow, sx + 60 + glow, sy + 20 + glow)
                    (opaque glow_color) 1.

Definition neon_sign (width height : Z) : ST painter unit :=
  sx <- randint 50 (width - 100) ;;
  sy <- randint (height / 3) (height / 2) ;;
  sign_color <- choice car_colors ;;
  rectangle_outline draw (sx, sy, sx + 60, sy + 20) (opaque sign_color) 2 ;;
  for_each (range 3) (sign_ring sx sy sign_color).

(** Add neon signs *)
Definition sign_count : Z := 6.

Definition neon_signs (width height : Z) : ST painter unit :=
  for_each (range sign_count) (fun _ => neon_sign width height).

Definition rain_streak (width height : Z) : ST painter unit :=
  rx <- randint 0 width ;;
  ry <- randint 0 (height - 50) ;;
  let rain_color := (100, 150, 200) in
  line draw (rx, ry) (rx - 2, ry + 15) (opaque rain_color) 1.

(** Add rain effect *)
Definition rain_lines : Z := 200.

Definition rain (width height : Z) : ST painter unit :=
  for_each (range rain_lines) (fun _ => rain_streak width height).

(** One disc of a circular gradient on the glow layer *)
Definition glow_disc (gx gy radius r : Z) : ST painter unit :=
  q <- truediv (30 * (radius - r)) radius ;;
  alpha <- int q ;;
  let glow_color := mk_pixel 255 100 255 alpha in
  ellipse glow_draw (gx - r, gy - r, gx + r, gy + r) glow_color.

Definition glow_spot (width height : Z) : ST painter unit :=
  gx <- randint 0 width ;;
  gy <- randint 0 (height / 2) ;;
  radius <- randint 30 80 ;;
  for_each (range3 radius 0 (-5)) (glow_disc gx gy radius).

(** Add purple/pink atmospheric glow *)
Definition atmospheric_glow (width height : Z) : ST painter unit :=
  for_each (range 10) (fun _ => glow_spot width height).

(** Everything the function draws, in the order it draws it. *)
Definition draw_stages (width height : Z) : ST painter unit :=
  gradient width height ;;
  skyscrapers width height ;;
  flying_cars width height ;;
  neon_signs width height ;;
  rain width height ;;
  atmospheric_glow width height.

(* ================================================================== *)
(** ** create_cyberpunk_city: compositing, saving, and the entry point *)
(* ================================================================== *)

(** What the process leaves behind: the generator, the console, the disk.
    [os_refuses] stands for the operating system: the paths it will not
    create or write. *)
Inductive output : Type :=
| Stdout (text : string)
| Traceback (e : exn).

Record world : Type := mk_world {
  w_rng : nat -> Z;
  console : list output;
  dirs : list string;
  files : list (string * image);
  os_refuses : string -> bool
}.

(** The world after a line on the console, a directory made, a file
    written, and the generator advanced. *)
Definition logged (o : output) (w : world) : world :=
  mk_world (w_rng w) (console w ++ [o]) (dirs w) (files w) (os_refuses w).

Definition with_dir (path : string) (w : world) : world :=
  mk_world (w_rng w) (console w)
           (if existsb (String.eqb path) (dirs w) then dirs w
            else path :: dirs w)
           (files w) (os_refuses w).

Definition write_file (path : string) (im : image)
  (fs : list (string * image)) : list (string * image) :=
  (path, im) :: filter (fun f => negb (String.eqb path (fst f))) fs.

Definition with_file (path : string) (im : image) (w : world) : world :=
  mk_world (w_rng w) (console w) (dirs w)
           (write_file path im (files w)) (os_refuses w).

Definition with_rng (r : nat -> Z) (w : world) : world :=
  mk_world r (console w) (dirs w) (files w) (os_refuses w).

Definition read_file (path : string) (w : world) : option image :=
  option_map snd (find (fun f => String.eqb path (fst f)) (files w)).

Definition print (text : string) : ST world unit :=
  modify (logged (Stdout text)).

(** [traceback.print_exc()] *)
Definition print_exc (e : exn) : ST world unit :=
  modify (logged (Traceback e)).

(** [os.makedirs(path, exist_ok=True)] *)
Definition makedirs (path : string) : ST world unit :=
  fun w =>
    if os_refuses w path then (Raise (OSError path), w)
    else (Ok tt, with_dir path w).

(** [im.save(path)] *)
Definition save (im : image) (path : string) : ST world unit :=
  fun w =>
    if os_refuses w path then (Raise (OSError path), w)
    else (Ok tt, with_file path im w).

Section Script.
Context {P : Pillow}.

(** From the canvas to the blurred image: the body of the function between
    the two lines that touch the world, with the locals [width] and
    [height] as parameters. *)
Definition render (width height : Z) : ST painter image :=
  let img := image_new width height (opaque (10, 10, 30)) in
  draw_stages width height ;;
  fun s =>
    let glow_layer := image_new width height (mk_pixel 0 0 0 0) in
    let img := paint img (img_calls s) in
    let glow_layer := paint glow_layer (glow_calls s) in
    (* Blend glow layer *)
    let img := alpha_composite img glow_layer in
    (* Apply slight blur for atmospheric effect *)
    let img := gaussian_blur 0.5 img in
    (Ok img, s).

(** [img], [draw], [glow_layer] and [glow_draw] are locals of one call: the
    painter starts with no call issued on either image, and only the
    generator is shared with the rest of the process. *)
Definition with_painter {A} (m : ST painter A) : ST world A :=
  fun w =>
    let '(r, s) := m (mk_painter (w_rng w) []) in
    (r, with_rng (rng s) w).

Definition create_cyberpunk_city : ST world (string * string) :=
  print "Creating cyberpunk city artwork..." ;;
  (* Create output directory *)
  makedirs "ai-output" ;;
  (* Create canvas *)
  let '(width, height) := (512, 512) in
  img <- with_painter (render width height) ;;
  (* Save the image *)
  let output_path := "ai-output/cyberpunk-city.png"%string in
  save img output_path ;;
  print ("Cyberpunk city artwork saved to: " ++ output_path) ;;
  (* Also create a variation with enhanced effects *)
  let enhanced_img := img in
  let enhanced_img := unsharp_mask 1 150 3 enhanced_img in
  let enhanced_path := "ai-output/cyberpunk-city-enhanced.png"%string in
  save enhanced_img enhanced_path ;;
  print ("Enhanced version saved to: " ++ enhanced_path) ;;
  ret (output_path, enhanced_path).

(** The [__main__] block *)
Definition main : ST world unit :=
  try_except
    (paths <- create_cyberpunk_city ;;
     print "✅ Success! Cyberpunk city artwork created." ;;
     print "Generated files:" ;;
     for_each [fst paths; snd paths] (fun path => print ("  - " ++ path)))
    (fun e =>
       print ("❌ Error creating artwork: " ++ str e) ;;
       print_exc e).

End Script.

(* ================================================================== *)
(** ** A small rasteriser implementing the Pillow interface *)
(* ================================================================== *)

(** The results below hold for every implementation of [Pillow]. This one
    is used to run the script on given generator outputs: an ellipse is the
    set of pixel centres inside the inscribed ellipse of its box, a slanted
    line the pixels within half a step of the segment, the blur a
    five-point average and the sharpening an amplified difference to the
    blur, clipped to 8 bits. *)
Module Raster.

Definition ellipse_px (x0 y0 x1 y1 x y : Z) : bool :=
  in_box x0 y0 x1 y1 x y &&
  (let a := x1 - x0 in
   let b := y1 - y0 in
   let dx := 2 * x - x0 - x1 in
   let dy := 2 * y - y0 - y1 in
   dx * dx * (b * b) + dy * dy * (a * a) <=? a * a * (b * b)).

Definition line_px (x0 y0 x1 y1 x y : Z) : bool :=
  in_box (Z.min x0 x1) (Z.min y0 y1) (Z.max x0 x1) (Z.max y0 y1) x y &&
  (2 * Z.abs ((x - x0) * (y1 - y0) - (y - y0) * (x1 - x0))
   <=? Z.max (Z.abs (x1 - x0)) (Z.abs (y1 - y0))).

Definition clamp (lo hi v : Z) : Z := Z.max lo (Z.min hi v).

Definition clip8 (v : Z) : Z := clamp 0 255 v.

(** The pixel at (x, y), the border repeated outwards. *)
Definition near (im : image) (x y : Z) : pixel :=
  im_pixel im (clamp 0 (im_width im - 1) x) (clamp 0 (im_height im - 1) y).

Definition blur_channel (ch : pixel -> Z) (im : image) (x y : Z) : Z :=
  (4 * ch (near im x y) + ch (near im (x - 1) y) + ch (near im (x + 1) y)
   + ch (near im x (y - 1)) + ch (near im x (y + 1)) + 4) / 8.

Definition blur (_ : float) (im : image) : image :=
  mk_image (im_width im) (im_height im)
    (fun x y => mk_pixel (blur_channel red im x y) (blur_channel green im x y)
                         (blur_channel blue im x y) 255).

Definition sharpen_channel (percent threshold : Z) (ch : pixel -> Z)
  (im : image) (x y : Z) : Z :=
  let o := ch (im_pixel im x y) in
  let d := o - blur_channel ch im x y in
  if Z.abs d <? threshold then o else clip8 (o + d * percent / 100).

Definition sharpen (_ percent threshold : Z) (im : image) : image :=
  mk_image (im_width im) (im_height im)
    (fun x y => mk_pixel (sharpen_channel percent threshold red im x y)
                         (sharpen_channel percent threshold green im x y)
                         (sharpen_channel percent threshold blue im x y) 255).

Lemma inside_bounds im x y :
  inside im x y = true ->
  0 <= x < im_width im /\ 0 <= y < im_height im.
Proof.
  unfold inside. rewrite !andb_true_iff.
  rewrite !Z.leb_le, !Z.ltb_lt. lia.
Qed.

Lemma near_inside im x y dx dy :
  inside im x y = true -> inside im (clamp 0 (im_width im - 1) (x + dx))
                                    (clamp 0 (im_height im - 1) (y + dy)) = true.
Proof.
  intros H. apply inside_bounds in H.
  unfold inside, clamp. rewrite !andb_true_iff.
  rewrite !Z.leb_le, !Z.ltb_lt. lia.
Qed.

Lemma near_ok im x y dx dy :
  image_ok im -> inside im x y = true -> pixel_ok (near im (x + dx) (y + dy)).
Proof.
  intros Hok Hin. unfold near. apply Hok. now apply near_inside.
Qed.

Lemma average_range a b c d e :
  byte_range a -> byte_range b -> byte_range c -> byte_range d ->
  byte_range e -> byte_range ((4 * a + b + c + d + e + 4) / 8).
Proof.
  unfold byte_range. intros. split.
  - apply Z.div_pos; lia.
  - apply Z.lt_succ_r. apply Z.div_lt_upper_bound; lia.
Qed.

Lemma blur_channel_range ch im x y :
  (forall p, pixel_ok p -> byte_range (ch p)) ->
  image_ok im -> inside im x y = true ->
  byte_range (blur_channel ch im x y).
Proof.
  intros Hch Hok Hin. unfold blur_channel.
  pose proof (near_ok im x y 0 0 Hok Hin) as H0.
  pose proof (near_ok im x y (-1) 0 Hok Hin) as H1.
  pose proof (near_ok im x y 1 0 Hok Hin) as H2.
  pose proof (near_ok im x y 0 (-1) Hok Hin) as H3.
  pose proof (near_ok im x y 0 1 Hok Hin) as H4.
  rewrite !Z.add_0_r in *.
  replace (x + -1) with (x - 1) in H1 by lia.
  replace (y + -1) with (y - 1) in H3 by lia.
  apply average_range; now apply Hch.
Qed.

Lemma clip8_range v : byte_range (clip8 v).
Proof. unfold byte_range, clip8, clamp. lia. Qed.

Lemma blur_ok r im : image_ok im -> image_ok (blur r im).
Proof.
  intros Hok x y Hin. change (inside im x y = true) in Hin.
  unfold pixel_ok; cbn. repeat split.
  1-6: apply (blur_channel_range _ im x y); auto; unfold pixel_ok; tauto.
  all: lia.
Qed.

Lemma sharpen_ok r p t im : image_ok im -> image_ok (sharpen r p t im).
Proof.
  intros Hok x y Hin. change (inside im x y = true) in Hin.
  pose proof (Hok x y Hin) as (Hr & Hg & Hb & _).
  assert (Hch : forall ch, byte_range (ch (im_pixel im x y)) ->
                byte_range (sharpen_channel p t ch im x y)).
  { intros ch H. unfold sharpen_channel.
    destruct (_ <? _); [ assumption | apply clip8_range ]. }
  unfold pixel_ok; cbn. repeat split; try (apply Hch; assumption);
    unfold byte_range; lia.
Qed.

#[export] Instance pillow : Pillow := {|
  ellipse_covers := ellipse_px;
  line_covers := line_px;
  gaussian_blur := blur;
  unsharp_mask := sharpen;
  gaussian_blur_size := fun _ _ => conj eq_refl eq_refl;
  gaussian_blur_ok := blur_ok;
  unsharp_mask_size := fun _ _ _ _ => conj eq_refl eq_refl;
  unsharp_mask_ok := sharpen_ok
|}.

End Raster.

(* ================================================================== *)
(** ** Reasoning about the painter *)
(* ================================================================== *)

Definition trace : Type := list (layer * draw_call).

(** [emits m Q]: from every state, [m] returns without raising, and the
    value [a] it returns and the calls [d] it has added satisfy [Q a d]. *)
Definition emits {A} (m : ST painter A) (Q : A -> trace -> Prop) : Prop :=
  forall s, exists a s',
    m s = (Ok a, s') /\ exists d, calls s' = calls s ++ d /\ Q a d.

Lemma emits_ret {A} (a : A) (Q : A -> trace -> Prop) :
  Q a [] -> emits (ret a) Q.
Proof.
  intros H s. exists a, s. split; [ reflexivity | ].
  exists []. now rewrite app_nil_r.
Qed.

Lemma emits_bind {A B} (m : ST painter A) (k : A -> ST painter B)
  (Q1 : A -> trace -> Prop) (Q : B -> trace -> Prop) :
  emits m Q1 ->
  (forall a d1, Q1 a d1 -> emits (k a) (fun b d2 => Q b (d1 ++ d2))) ->
  emits (bind m k) Q.
Proof.
  intros Hm Hk s.
  destruct (Hm s) as (a & s1 & E1 & d1 & C1 & H1).
  destruct (Hk a d1 H1 s1) as (b & s2 & E2 & d2 & C2 & H2).
  exists b, s2. split.
  - unfold bind. now rewrite E1.
  - exists (d1 ++ d2). now rewrite C2, C1, app_assoc.
Qed.

Lemma emits_weaken {A} (m : ST painter A) (Q Q' : A -> trace -> Prop) :
  emits m Q -> (forall a d, Q a d -> Q' a d) -> emits m Q'.
Proof.
  intros Hm HQ s. destruct (Hm s) as (a & s' & E & d & C & H).
  exists a, s'. split; [ assumption | ]. exists d. auto.
Qed.

(** A step that issues no call and whose value satisfies [R]. *)
Definition silent {A} (m : ST painter A) (R : A -> Prop) : Prop :=
  emits m (fun a d => d = [] /\ R a).

Lemma emits_after_silent {A B} (m : ST painter A) (R : A -> Prop)
  (k : A -> ST painter B) (Q : B -> trace -> Prop) :
  silent m R -> (forall a, R a -> emits (k a) Q) -> emits (bind m k) Q.
Proof.
  intros Hm Hk. eapply emits_bind; [ exact Hm | ].
  intros a d1 [-> Ha]. cbn. now apply Hk.
Qed.

Lemma emits_after_issue {B} l c (k : ST painter B) (Q : B -> trace -> Prop) :
  emits k (fun b d => Q b ((l, c) :: d)) ->
  emits (bind (issue l c) (fun _ => k)) Q.
Proof.
  intros Hk. eapply emits_bind with (Q1 := fun _ d => d = [(l, c)]).
  - intros s. eexists tt, _. split; [ reflexivity | ].
    exists [(l, c)]. split; reflexivity.
  - intros _ d1 ->. exact Hk.
Qed.

Lemma emits_issue l c (Q : unit -> trace -> Prop) :
  Q tt [(l, c)] -> emits (issue l c) Q.
Proof.
  intros H s. eexists tt, _. split; [ reflexivity | ].
  exists [(l, c)]. split; [ reflexivity | assumption ].
Qed.

Lemma silent_randint a b :
  a <= b -> silent (randint a b) (fun v => a <= v <= b).
Proof.
  intros Hab s. unfold randint.
  destruct (Z.ltb_spec b a) as [Hlt | _]; [ lia | ].
  eexists _, _. split; [ reflexivity | ].
  exists []. cbn. rewrite app_nil_r. repeat split; try reflexivity.
  all: pose proof (Z.mod_pos_bound (rng s 0%nat) (b - a + 1)); lia.
Qed.

Lemma silent_choice {A} (xs : list A) :
  xs <> [] -> silent (choice xs) (fun v => In v xs).
Proof.
  intros Hne s. destruct xs as [| x0 xs]; [ congruence | ].
  eexists _, _. split; [ reflexivity | ].
  exists []. cbn [calls]. rewrite app_nil_r. repeat split; try reflexivity.
  apply nth_In.
  pose proof (Z.mod_pos_bound (rng s 0%nat)
                (Z.of_nat (List.length (x0 :: xs)))) as Hm.
  cbn [List.length] in *. lia.
Qed.

Lemma silent_random : silent random (fun k => 0 <= k < 2 ^ 53).
Proof.
  intros s. eexists _, _. split; [ reflexivity | ].
  exists []. cbn [calls]. rewrite app_nil_r. repeat split; try reflexivity.
  all: pose proof (Z.mod_pos_bound (rng s 0%nat) (2 ^ 53)); lia.
Qed.

Lemma silent_truediv a b :
  b <> 0 ->
  silent (truediv a b)
         (fun q => q = PrimFloat.div (float_of_int a) (float_of_int b)).
Proof.
  intros Hb s. unfold truediv.
  destruct (Z.eqb_spec b 0) as [-> | _]; [ congruence | ].
  eexists _, s. split; [ reflexivity | ].
  exists []. now rewrite app_nil_r.
Qed.

Lemma silent_int f z : trunc f = inl z -> silent (int f) (fun v => v = z).
Proof.
  intros Hf s. unfold int. rewrite Hf.
  exists z, s. split; [ reflexivity | ].
  exists []. now rewrite app_nil_r.
Qed.

(** Loops. *)
Lemma emits_for_each_map {A} (xs : list A) (body : A -> ST painter unit)
  (g : A -> layer * draw_call) :
  (forall x, In x xs -> emits (body x) (fun _ d => d = [g x])) ->
  emits (for_each xs body) (fun _ d => d = map g xs).
Proof.
  induction xs as [| x xs IH]; intros Hbody; cbn [for_each map].
  - now apply emits_ret.
  - eapply emits_bind; [ apply Hbody; now left | ].
    intros [] d1 ->. eapply emits_weaken; [ apply IH | ].
    + intros y Hy. apply Hbody. now right.
    + intros [] d ->. reflexivity.
Qed.

Lemma emits_for_each_Forall {A} (xs : list A) (body : A -> ST painter unit)
  (W : layer * draw_call -> Prop) :
  (forall x, In x xs -> emits (body x) (fun _ d => Forall W d)) ->
  emits (for_each xs body) (fun _ d => Forall W d).
Proof.
  induction xs as [| x xs IH]; intros Hbody; cbn [for_each].
  - apply emits_ret. constructor.
  - eapply emits_bind; [ apply Hbody; now left | ].
    intros [] d1 H1. cbn beta in H1. eapply emits_weaken; [ apply IH | ].
    + intros y Hy. apply Hbody. now right.
    + intros [] d H. cbn beta in H. apply Forall_app. now split.
Qed.

(** A loop whose passes each add a group of calls of the same kind. *)
Definition groups_of (G : trace -> Prop) (n : nat) (d : trace) : Prop :=
  exists gs, List.length gs = n /\ Forall G gs /\ d = concat gs.

Lemma emits_for_each_groups {A} (xs : list A) (body : A -> ST painter unit)
  (G : trace -> Prop) :
  (forall x, In x xs -> emits (body x) (fun _ d => G d)) ->
  emits (for_each xs body) (fun _ d => groups_of G (List.length xs) d).
Proof.
  induction xs as [| x xs IH]; intros Hbody; cbn [for_each].
  - apply emits_ret. exists []. repeat split. constructor.
  - eapply emits_bind; [ apply Hbody; now left | ].
    intros [] d1 H1. cbn beta in H1. eapply emits_weaken; [ apply IH | ].
    + intros y Hy. apply Hbody. now right.
    + intros [] d (gs & Hlen & Hall & ->).
      exists (d1 :: gs). cbn. repeat split; auto.
Qed.

Lemma In_range n x : In x (range n) <-> 0 <= x < n.
Proof.
  unfold range. rewrite in_map_iff. split.
  - intros (i & <- & Hi). apply in_seq in Hi. lia.
  - intros H. exists (Z.to_nat x). split; [ lia | ].
    apply in_seq. lia.
Qed.

Lemma range_length n : 0 <= n -> Z.of_nat (List.length (range n)) = n.
Proof.
  intros H. unfold range. rewrite length_map, length_seq. lia.
Qed.

(* ================================================================== *)
(** ** What each stage draws *)
(* ================================================================== *)

(** *** Background gradient *)

Definition sky_purple (height y : Z) : Z := 60 * (height - y) / height.
Definition sky_blue (height y : Z) : Z := 30 + 40 * y / height.

Definition sky_line (width height y : Z) : layer * draw_call :=
  (draw, Line 0 y width y
              (opaque (sky_purple height y + 20, 10, sky_blue height y)) 0).

(** On the 512 rows of the canvas the two float expressions of the script
    are the integer quotients above. *)
Definition sky_check (y : Z) : bool :=
  match trunc (60 * (1 - PrimFloat.div (float_of_int y) (float_of_int 512)))%float,
        trunc (30 + 40 * PrimFloat.div (float_of_int y) (float_of_int 512))%float
  with
  | inl p, inl b => (p =? sky_purple 512 y) && (b =? sky_blue 512 y)
  | _, _ => false
  end.

Lemma sky_check_all : forallb sky_check (range 512) = true.
Proof. vm_compute. reflexivity. Qed.

Lemma gradient_row_emits y :
  In y (range 512) ->
  emits (gradient_row 512 512 y) (fun _ d => d = [sky_line 512 512 y]).
Proof.
  intros Hy.
  pose proof (proj1 (forallb_forall _ _) sky_check_all y Hy) as Hc.
  unfold sky_check in Hc.
  destruct (trunc (60 * _)%float) as [p |] eqn:Ep; [ | discriminate ].
  destruct (trunc (30 + _)%float) as [b |] eqn:Eb; [ | discriminate ].
  apply andb_true_iff in Hc as [Hp Hb].
  apply Z.eqb_eq in Hp, Hb. subst p b.
  unfold gradient_row.
  eapply emits_after_silent; [ apply silent_truediv; lia | intros q -> ].
  eapply emits_after_silent; [ apply silent_int; exact Ep | intros p -> ].
  eapply emits_after_silent; [ apply silent_truediv; lia | intros q -> ].
  eapply emits_after_silent; [ apply silent_int; exact Eb | intros b -> ].
  apply emits_issue. reflexivity.
Qed.

Lemma gradient_emits :
  emits (gradient 512 512)
        (fun _ d => d = map (sky_line 512 512) (range 512)).
Proof. apply emits_for_each_map. exact gradient_row_emits. Qed.

(** *** Buildings and their windows *)

Definition window_call (bx by_ row col : Z) (c : color) : layer * draw_call :=
  (draw, Rectangle (bx + col * 15 + 5) (by_ + row * 20 + 5)
                   (bx + col * 15 + 5 + 8) (by_ + row * 20 + 5 + 12)
                   (opaque c)).

Definition is_window (bx by_ bw bh : Z) (c : layer * draw_call) : Prop :=
  exists row col color,
    0 <= row < bh / 20 /\ 0 <= col < bw / 15 /\ In color neon_colors /\
    c = window_call bx by_ row col color.

(** The calls of one pass of the buildings loop: the building's rectangle,
    then the windows lit in it. *)
Definition is_building (width height : Z) (g : trace) : Prop :=
  exists bx by_ bw r g_ b wins,
    0 <= bx <= width - 80 /\
    height / 3 <= by_ <= height - 50 /\
    30 <= bw <= 80 /\
    (10 <= r <= 30 /\ 10 <= g_ <= 30 /\ 10 <= b <= 30) /\
    g = (draw, Rectangle bx by_ (bx + bw) (by_ + (height - by_))
                         (opaque (r, g_, b))) :: wins /\
    Forall (is_window bx by_ bw (height - by_)) wins.

Lemma window_cell_emits bx by_ row col :
  emits (window_cell bx by_ row col)
        (fun _ d => d = [] \/
                    exists color, In color neon_colors /\
                                  d = [window_call bx by_ row col color]).
Proof.
  unfold window_cell.
  eapply emits_after_silent; [ apply silent_random | intros u _ ].
  destruct (gt_0_3 u).
  - eapply emits_after_silent;
      [ apply silent_choice; discriminate | intros color Hc ].
    apply emits_issue. right. exists color. split; [ assumption | reflexivity ].
  - apply emits_ret. now left.
Qed.

Lemma windows_emits bx by_ bw bh :
  emits (windows bx by_ bw bh) (fun _ d => Forall (is_window bx by_ bw bh) d).
Proof.
  unfold windows. apply emits_for_each_Forall. intros row Hrow.
  apply emits_for_each_Forall. intros col Hcol.
  apply In_range in Hrow, Hcol.
  eapply emits_weaken; [ apply window_cell_emits | ].
  intros [] d [-> | (color & Hc & ->)]; constructor; [ | constructor ].
  now exists row, col, color.
Qed.

Lemma skyscraper_emits :
  emits (skyscraper 512 512) (fun _ d => is_building 512 512 d).
Proof.
  unfold skyscraper.
  eapply emits_after_silent; [ apply silent_randint; lia | intros bx Hbx ].
  eapply emits_after_silent;
    [ apply silent_randint; cbv; discriminate | intros by_ Hby ].
  eapply emits_after_silent; [ apply silent_randint; lia | intros bw Hbw ].
  eapply emits_after_silent; [ apply silent_randint; lia | intros r Hr ].
  eapply emits_after_silent; [ apply silent_randint; lia | intros g Hg ].
  eapply emits_after_silent; [ apply silent_randint; lia | intros b Hb ].
  apply emits_after_issue.
  eapply emits_weaken; [ apply windows_emits | ].
  intros [] wins Hw. exists bx, by_, bw, r, g, b, wins.
  cbn beta in *. repeat split; try tauto; try lia.
Qed.

Lemma skyscrapers_emits :
  emits (skyscrapers 512 512)
        (fun _ d => groups_of (is_building 512 512) 15 d).
Proof.
  unfold skyscrapers.
  eapply emits_weaken.
  - apply emits_for_each_groups with (G := is_building 512 512).
    intros _ _. apply skyscraper_emits.
  - intros [] d H. exact H.
Qed.

(** *** Flying cars and their trails *)

Definition range_from (a n : Z) : list Z := map (fun i => a + i) (range n).

Lemma In_range_from a n x : In x (range_from a n) <-> a <= x < a + n.
Proof.
  unfold range_from. rewrite in_map_iff. split.
  - intros (i & <- & Hi). apply In_range in Hi. lia.
  - intros H. exists (x - a). split; [ lia | ]. apply In_range. lia.
Qed.

(** The value of [int(f)] where it has one. *)
Definition to_Z (f : float) : Z :=
  match trunc f with inl z => z | inr _ => 0 end.

(** [c * alpha * 0.5] with [alpha = 1 - (j / trail_length)] *)
Definition fade (c trail_length j : Z) : float :=
  (float_of_int c
   * (1 - PrimFloat.div (float_of_int j) (float_of_int trail_length))
   * 0.5)%float.

Definition trail_color (car_color : color) (trail_length j : Z) : color :=
  let '(r, g, b) := car_color in
  (to_Z (fade r trail_length j), to_Z (fade g trail_length j),
   to_Z (fade b trail_length j)).

Definition trail_call (cx cy : Z) (car_color : color) (trail_length j : Z)
  : layer * draw_call :=
  (draw, Ellipse (cx - j - 1) (cy - 1) (cx - j + 1) (cy + 1)
                 (opaque (trail_color car_color trail_length j))).

Definition is_car (width height : Z) (g : trace) : Prop :=
  exists cx cy car_color trail_length,
    0 <= cx <= width /\
    height / 4 <= cy <= height / 2 /\
    In car_color car_colors /\
    15 <= trail_length <= 30 /\
    g = (draw, Ellipse (cx - 3) (cy - 2) (cx + 3) (cy + 2) (opaque car_color))
        :: map (trail_call cx cy car_color trail_length) (range trail_length).

(** Every channel of a car or sign colour is 0 or 255. *)
Definition saturated (c : color) : Prop :=
  let '(r, g, b) := c in
  (r = 0 \/ r = 255) /\ (g = 0 \/ g = 255) /\ (b = 0 \/ b = 255).

Lemma car_colors_saturated c : In c car_colors -> saturated c.
Proof.
  intros [<- | [<- | [<- | []]]]; cbn; auto.
Qed.

Definition fade_check (trail_length j c : Z) : bool :=
  match trunc (fade c trail_length j) with
  | inl z => (0 <=? z) && (z <=? 127)
  | inr _ => false
  end.

Lemma fade_check_all :
  forallb (fun l => forallb (fun j => forallb (fade_check l j) [0; 255])
                            (range l))
          (range_from 15 16) = true.
Proof. vm_compute. reflexivity. Qed.

Lemma fade_int c trail_length j :
  15 <= trail_length <= 30 -> 0 <= j < trail_length -> c = 0 \/ c = 255 ->
  trunc (fade c trail_length j) = inl (to_Z (fade c trail_length j)) /\
  0 <= to_Z (fade c trail_length j) <= 127.
Proof.
  intros Hl Hj Hc.
  assert (Hinl : In trail_length (range_from 15 16))
    by (apply In_range_from; lia).
  assert (Hinj : In j (range trail_length)) by now apply In_range.
  assert (Hinc : In c [0; 255]) by (cbn; intuition).
  pose proof (proj1 (forallb_forall _ _) fade_check_all _ Hinl) as H.
  cbn beta in H.
  pose proof (proj1 (forallb_forall _ _) H _ Hinj) as H'.
  cbn beta in H'.
  pose proof (proj1 (forallb_forall _ _) H' _ Hinc) as H''.
  clear H H'. rename H'' into H.
  unfold fade_check in H. unfold to_Z.
  destruct (trunc (fade c trail_length j)) as [z |]; [ | discriminate ].
  apply andb_true_iff in H as [H0 H1].
  apply Z.leb_le in H0, H1. auto.
Qed.

Lemma silent_tuple_int f r g b :
  trunc (f r) = inl (to_Z (f r)) ->
  trunc (f g) = inl (to_Z (f g)) ->
  trunc (f b) = inl (to_Z (f b)) ->
  silent (tuple_int f (r, g, b))
         (fun c => c = (to_Z (f r), to_Z (f g), to_Z (f b))).
Proof.
  intros Hr Hg Hb. unfold tuple_int.
  eapply emits_after_silent; [ apply silent_int; exact Hr | intros r' -> ].
  eapply emits_after_silent; [ apply silent_int; exact Hg | intros g' -> ].
  eapply emits_after_silent; [ apply silent_int; exact Hb | intros b' -> ].
  apply emits_ret. auto.
Qed.

Lemma trail_segment_emits cx cy car_color trail_length j :
  In car_color car_colors -> 15 <= trail_length <= 30 ->
  In j (range trail_length) ->
  emits (trail_segment cx cy car_color trail_length j)
        (fun _ d => d = [trail_call cx cy car_color trail_length j]).
Proof.
  intros Hc Hl Hj. apply In_range in Hj.
  apply car_colors_saturated in Hc.
  destruct car_color as [[r g] b]. destruct Hc as (Hr & Hg & Hb).
  unfold trail_segment.
  eapply emits_after_silent; [ apply silent_truediv; lia | intros q -> ].
  eapply emits_after_silent.
  - apply silent_tuple_int.
    + exact (proj1 (fade_int r trail_length j Hl Hj Hr)).
    + exact (proj1 (fade_int g trail_length j Hl Hj Hg)).
    + exact (proj1 (fade_int b trail_length j Hl Hj Hb)).
  - intros c ->. apply emits_issue. reflexivity.
Qed.

Lemma flying_car_emits :
  emits (flying_car 512 512) (fun _ d => is_car 512 512 d).
Proof.
  unfold flying_car.
  eapply emits_after_silent; [ apply silent_randint; lia | intros cx Hcx ].
  eapply emits_after_silent;
    [ apply silent_randint; cbv; discriminate | intros cy Hcy ].
  eapply emits_after_silent;
    [ apply silent_choice; discriminate | intros car_color Hcol ].
  apply emits_after_issue.
  eapply emits_after_silent; [ apply silent_randint; lia | intros l Hl ].
  cbn beta in *.
  eapply emits_weaken.
  - apply emits_for_each_map
      with (g := trail_call cx cy car_color l).
    intros j Hj. now apply trail_segment_emits.
  - intros [] d ->. exists cx, cy, car_color, l. auto.
Qed.

Lemma flying_cars_emits :
  emits (flying_cars 512 512) (fun _ d => groups_of (is_car 512 512) 8 d).
Proof.
  unfold flying_cars.
  eapply emits_weaken.
  - apply emits_for_each_groups with (G := is_car 512 512).
    intros _ _. apply flying_car_emits.
  - intros [] d H. exact H.
Qed.

(** *** Neon signs *)

(** [int(c * (0.8 - glow * 0.2))] for a channel that is 0 or 255 and the
    three rings: four, three and two fifths of the channel. *)
Definition ring_channel (c glow : Z) : Z := c * (4 - glow) / 5.

Definition ring_color (sign_color : color) (glow : Z) : color :=
  let '(r, g, b) := sign_color in
  (ring_channel r glow, ring_channel g glow, ring_channel b glow).

Definition ring_call (sx sy : Z) (sign_color : color) (glow : Z)
  : layer * draw_call :=
  (draw, Outline (sx - glow) (sy - glow) (sx + 60 + glow) (sy + 20 + glow)
                 (opaque (ring_color sign_color glow)) 1).

Definition is_sign (width height : Z) (g : trace) : Prop :=
  exists sx sy sign_color,
    50 <= sx <= width - 100 /\
    height / 3 <= sy <= height / 2 /\
    In sign_color car_colors /\
    g = (draw, Outline sx sy (sx + 60) (sy + 20) (opaque sign_color) 2)
        :: map (ring_call sx sy sign_color) (range 3).

Definition dim (c glow : Z) : float :=
  (float_of_int c * (0.8 - float_of_int glow * 0.2))%float.

Definition dim_check (glow c : Z) : bool :=
  match trunc (dim c glow) with
  | inl z => z =? ring_channel c glow
  | inr _ => false
  end.

Lemma dim_check_all :
  forallb (fun glow => forallb (dim_check glow) [0; 255]) (range 3) = true.
Proof. vm_compute. reflexivity. Qed.

Lemma dim_int c glow :
  In glow (range 3) -> c = 0 \/ c = 255 ->
  trunc (dim c glow) = inl (to_Z (dim c glow)) /\
  to_Z (dim c glow) = ring_channel c glow.
Proof.
  intros Hg Hc. pose proof dim_check_all as H.
  rewrite forallb_forall in H. specialize (H glow Hg).
  rewrite forallb_forall in H.
  assert (Hin : In c [0; 255]) by (cbn; intuition).
  specialize (H c Hin). unfold dim_check in H. unfold to_Z.
  destruct (trunc (dim c glow)) as [z |]; [ | discriminate ].
  apply Z.eqb_eq in H. auto.
Qed.

Lemma sign_ring_emits sx sy sign_color glow :
  In sign_color car_colors -> In glow (range 3) ->
  emits (sign_ring sx sy sign_color glow)
        (fun _ d => d = [ring_call sx sy sign_color glow]).
Proof.
  intros Hc Hg. apply car_colors_saturated in Hc.
  destruct sign_color as [[r g] b]. destruct Hc as (Hr & Hgr & Hb).
  unfold sign_ring.
  eapply emits_after_silent.
  - apply (silent_tuple_int (fun c => dim c glow)).
    + exact (proj1 (dim_int r glow Hg Hr)).
    + exact (proj1 (dim_int g glow Hg Hgr)).
    + exact (proj1 (dim_int b glow Hg Hb)).
  - intros c ->. apply emits_issue.
    unfold ring_call, ring_color.
    rewrite (proj2 (dim_int r glow Hg Hr)), (proj2 (dim_int g glow Hg Hgr)),
            (proj2 (dim_int b glow Hg Hb)).
    reflexivity.
Qed.

Lemma neon_sign_emits :
  emits (neon_sign 512 512) (fun _ d => is_sign 512 512 d).
Proof.
  unfold neon_sign.
  eapply emits_after_silent; [ apply silent_randint; lia | intros sx Hsx ].
  eapply emits_after_silent;
    [ apply silent_randint; cbv; discriminate | intros sy Hsy ].
  eapply emits_after_silent;
    [ apply silent_choice; discriminate | intros sign_color Hcol ].
  apply emits_after_issue. cbn beta in *.
  eapply emits_weaken.
  - apply emits_for_each_map with (g := ring_call sx sy sign_color).
    intros glow Hg. now apply sign_ring_emits.
  - intros [] d ->. exists sx, sy, sign_color. auto.
Qed.

Lemma neon_signs_emits :
  emits (neon_signs 512 512) (fun _ d => groups_of (is_sign 512 512) 6 d).
Proof.
  unfold neon_signs.
  eapply emits_weaken.
  - apply emits_for_each_groups with (G := is_sign 512 512).
    intros _ _. apply neon_sign_emits.
  - intros [] d H. exact H.
Qed.

(** *** Rain *)

Definition is_streak (width height : Z) (g : trace) : Prop :=
  exists rx ry,
    0 <= rx <= width /\ 0 <= ry <= height - 50 /\
    g = [(draw, Line rx ry (rx - 2) (ry + 15) (opaque (100, 150, 200)) 1)].

Lemma rain_streak_emits :
  emits (rain_streak 512 512) (fun _ d => is_streak 512 512 d).
Proof.
  unfold rain_streak.
  eapply emits_after_silent; [ apply silent_randint; lia | intros rx Hrx ].
  eapply emits_after_silent; [ apply silent_randint; lia | intros ry Hry ].
  apply emits_issue. now exists rx, ry.
Qed.

Lemma rain_emits :
  emits (rain 512 512) (fun _ d => groups_of (is_streak 512 512) 200 d).
Proof.
  unfold rain.
  eapply emits_weaken.
  - apply emits_for_each_groups with (G := is_streak 512 512).
    intros _ _. apply rain_streak_emits.
  - intros [] d H. exact H.
Qed.

(** *** Atmospheric glow *)

(** [int(30 * (radius - r) / radius)] *)
Definition disc_alpha (radius r : Z) : Z := 30 * (radius - r) / radius.

Definition disc_call (gx gy radius r : Z) : layer * draw_call :=
  (glow_draw, Ellipse (gx - r) (gy - r) (gx + r) (gy + r)
                      (mk_pixel 255 100 255 (disc_alpha radius r))).

Definition is_spot (width height : Z) (g : trace) : Prop :=
  exists gx gy radius,
    0 <= gx <= width /\ 0 <= gy <= height / 2 /\ 30 <= radius <= 80 /\
    g = map (disc_call gx gy radius) (range3 radius 0 (-5)).

Definition disc_check (radius r : Z) : bool :=
  match trunc (PrimFloat.div (float_of_int (30 * (radius - r)))
                             (float_of_int radius)) with
  | inl z => (z =? disc_alpha radius r) && (0 <=? z) && (z <? 30)
  | inr _ => false
  end.

Lemma disc_check_all :
  forallb (fun radius => forallb (disc_check radius) (range3 radius 0 (-5)))
          (range_from 30 51) = true.
Proof. vm_compute. reflexivity. Qed.

Lemma disc_int radius r :
  30 <= radius <= 80 -> In r (range3 radius 0 (-5)) ->
  trunc (PrimFloat.div (float_of_int (30 * (radius - r)))
                       (float_of_int radius)) = inl (disc_alpha radius r) /\
  0 <= disc_alpha radius r < 30.
Proof.
  intros Hrad Hr.
  assert (Hin : In radius (range_from 30 51)) by (apply In_range_from; lia).
  pose proof (proj1 (forallb_forall _ _) disc_check_all _ Hin) as H.
  cbn beta in H.
  pose proof (proj1 (forallb_forall _ _) H _ Hr) as H'.
  unfold disc_check in H'.
  destruct (trunc _) as [z |]; [ | discriminate ].
  rewrite !andb_true_iff in H'. destruct H' as [[H1 H2] H3].
  apply Z.eqb_eq in H1. apply Z.leb_le in H2. apply Z.ltb_lt in H3.
  subst z. auto.
Qed.

Lemma glow_disc_emits gx gy radius r :
  30 <= radius <= 80 -> In r (range3 radius 0 (-5)) ->
  emits (glow_disc gx gy radius r)
        (fun _ d => d = [disc_call gx gy radius r]).
Proof.
  intros Hrad Hr. unfold glow_disc.
  eapply emits_after_silent; [ apply silent_truediv; lia | intros q -> ].
  eapply emits_after_silent;
    [ apply silent_int; exact (proj1 (disc_int radius r Hrad Hr))
    | intros a -> ].
  apply emits_issue. reflexivity.
Qed.

Lemma glow_spot_emits :
  emits (glow_spot 512 512) (fun _ d => is_spot 512 512 d).
Proof.
  unfold glow_spot.
  eapply emits_after_silent; [ apply silent_randint; lia | intros gx Hgx ].
  eapply emits_after_silent;
    [ apply silent_randint; cbv; discriminate | intros gy Hgy ].
  eapply emits_after_silent; [ apply silent_randint; lia | intros rad Hrad ].
  cbn beta in *.
  eapply emits_weaken.
  - apply emits_for_each_map with (g := disc_call gx gy rad).
    intros r Hr. now apply glow_disc_emits.
  - intros [] d ->. exists gx, gy, rad. auto.
Qed.

Lemma atmospheric_glow_emits :
  emits (atmospheric_glow 512 512)
        (fun _ d => groups_of (is_spot 512 512) 10 d).
Proof.
  unfold atmospheric_glow.
  eapply emits_weaken.
  - apply emits_for_each_groups with (G := is_spot 512 512).
    intros _ _. apply glow_spot_emits.
  - intros [] d H. exact H.
Qed.

(** *** The whole drawing *)

(** The calls of one run on the 512 x 512 canvas, stage after stage. *)
Definition city_trace (d : trace) : Prop :=
  exists buildings cars signs streaks spots,
    d = map (sky_line 512 512) (range 512)
        ++ buildings ++ cars ++ signs ++ streaks ++ spots /\
    groups_of (is_building 512 512) 15 buildings /\
    groups_of (is_car 512 512) 8 cars /\
    groups_of (is_sign 512 512) 6 signs /\
    groups_of (is_streak 512 512) 200 streaks /\
    groups_of (is_spot 512 512) 10 spots.

Lemma draw_stages_emits :
  emits (draw_stages 512 512) (fun _ d => city_trace d).
Proof.
  unfold draw_stages.
  eapply emits_bind; [ apply gradient_emits | intros [] d1 -> ].
  eapply emits_bind; [ apply skyscrapers_emits | intros [] d2 H2 ].
  eapply emits_bind; [ apply flying_cars_emits | intros [] d3 H3 ].
  eapply emits_bind; [ apply neon_signs_emits | intros [] d4 H4 ].
  eapply emits_bind; [ apply rain_emits | intros [] d5 H5 ].
  eapply emits_weaken; [ apply atmospheric_glow_emits | intros [] d6 H6 ].
  cbn beta in *.
  exists d2, d3, d4, d5, d6. auto 10.
Qed.

(* ================================================================== *)
(** ** Painting *)
(* ================================================================== *)

Lemma on_layer_app l a b : on_layer l (a ++ b) = on_layer l a ++ on_layer l b.
Proof. unfold on_layer. now rewrite filter_app, map_app. Qed.

Lemma on_layer_In l c cs : In c (on_layer l cs) -> In (l, c) cs.
Proof.
  unfold on_layer. rewrite in_map_iff.
  intros ([l' c'] & <- & H). apply filter_In in H as [H E].
  cbn in *. destruct l, l'; try discriminate; assumption.
Qed.

Lemma inside_iff im x y :
  inside im x y = true <-> 0 <= x < im_width im /\ 0 <= y < im_height im.
Proof.
  unfold inside. rewrite !andb_true_iff, !Z.leb_le, !Z.ltb_lt. lia.
Qed.

Section Painting.
Context {P : Pillow}.

Lemma paint_cons im c cs : paint im (c :: cs) = paint (draw_on im c) cs.
Proof. reflexivity. Qed.

Lemma paint_app im a b : paint im (a ++ b) = paint (paint im a) b.
Proof. apply fold_left_app. Qed.

Lemma paint_size im cs : same_size (paint im cs) im.
Proof.
  revert im. induction cs as [| c cs IH]; intros im.
  - split; reflexivity.
  - rewrite paint_cons. destruct (IH (draw_on im c)) as [Hw Hh].
    split; assumption.
Qed.

Lemma inside_paint im cs x y : inside (paint im cs) x y = inside im x y.
Proof.
  unfold inside. destruct (paint_size im cs) as [-> ->]. reflexivity.
Qed.

(** Calls that do not cover a pixel leave it as it was. *)
Lemma paint_untouched im cs x y :
  Forall (fun c => covers c x y = false) cs ->
  im_pixel (paint im cs) x y = im_pixel im x y.
Proof.
  revert im. induction cs as [| c cs IH]; intros im H.
  - reflexivity.
  - inversion H as [| ? ? Hc Hcs]; subst.
    rewrite paint_cons, IH by assumption.
    cbn. rewrite Hc, andb_false_r. reflexivity.
Qed.

(** A pixel shows the ink of the last call that covered it. *)
Lemma paint_last im before c after x y :
  inside im x y = true -> covers c x y = true ->
  Forall (fun c' => covers c' x y = false) after ->
  im_pixel (paint im (before ++ c :: after)) x y = ink c.
Proof.
  intros Hin Hc Hafter.
  rewrite paint_app, paint_cons, paint_untouched by assumption.
  cbn. rewrite inside_paint, Hin, Hc. reflexivity.
Qed.

(** Inks within 8 bits keep an 8-bit image 8-bit. *)
Lemma paint_ok im cs :
  image_ok im -> Forall (fun c => pixel_ok (ink c)) cs ->
  image_ok (paint im cs).
Proof.
  revert im. induction cs as [| c cs IH]; intros im Him Hcs.
  - assumption.
  - inversion Hcs as [| ? ? Hc Hrest]; subst.
    rewrite paint_cons. apply IH; [ | assumption ].
    intros x y Hxy. change (inside im x y = true) in Hxy. cbn.
    rewrite Hxy. cbn. destruct (covers c x y); auto.
Qed.

End Painting.

Lemma image_new_ok width height fill :
  pixel_ok fill -> image_ok (image_new width height fill).
Proof. intros H x y _. exact H. Qed.

Lemma over_range o a b :
  byte_range o -> byte_range a -> byte_range b -> byte_range (over o a b).
Proof.
  unfold byte_range, over. intros Ho Ha Hb. split.
  - apply Z.div_pos; nia.
  - apply Z.lt_succ_r. apply Z.div_lt_upper_bound; nia.
Qed.

Lemma alpha_composite_ok base top :
  same_size base top -> image_ok base -> image_ok top ->
  image_ok (alpha_composite base top).
Proof.
  intros [Hw Hh] Hb Ht x y Hin. change (inside base x y = true) in Hin.
  assert (Hin' : inside top x y = true).
  { unfold inside in *. now rewrite <- Hw, <- Hh. }
  destruct (Hb x y Hin) as (Br & Bg & Bb & _).
  destruct (Ht x y Hin') as (Tr & Tg & Tb & Ta).
  cbn. unfold composite_pixel, pixel_ok. cbn.
  repeat split; try (apply over_range; assumption); unfold byte_range; lia.
Qed.

(* ================================================================== *)
(** ** Results *)
(* ================================================================== *)

(** A painter at the start of a call: nothing drawn yet, and [t] the raw
    outputs the generator is going to deliver. *)
Definition fresh (t : nat -> Z) : painter := mk_painter t [].

(** The canvas as created by [Image.new('RGB', (512, 512), (10, 10, 30))]. *)
Definition blank_canvas : image := image_new 512 512 (opaque (10, 10, 30)).

Lemma range_NoDup n : NoDup (range n).
Proof.
  unfold range. apply Injective_map_NoDup.
  - intros a b. apply Nat2Z.inj.
  - apply seq_NoDup.
Qed.

Lemma on_layer_sky width height ys :
  on_layer draw (map (sky_line width height) ys)
  = map (fun y => snd (sky_line width height y)) ys.
Proof.
  induction ys as [| y ys IH]; [ reflexivity | ].
  cbn [map]. rewrite <- IH. reflexivity.
Qed.

Lemma sky_purple_bounds y :
  0 <= y < 512 -> 0 <= sky_purple 512 y <= 60.
Proof.
  intros H. unfold sky_purple. split.
  - apply Z.div_pos; lia.
  - apply Z.div_le_upper_bound; lia.
Qed.

Lemma sky_blue_bounds y :
  0 <= y < 512 -> 30 <= sky_blue 512 y <= 69.
Proof.
  intros H. unfold sky_blue.
  assert (0 <= 40 * y / 512 <= 39); [ | lia ].
  split; [ apply Z.div_pos; lia | ].
  apply Z.lt_succ_r. apply Z.div_lt_upper_bound; lia.
Qed.

Section Gradient.
Context {P : Pillow}.

Lemma sky_pixel x y :
  0 <= x < 512 -> 0 <= y < 512 ->
  im_pixel (paint blank_canvas
              (map (fun y => snd (sky_line 512 512 y)) (range 512))) x y
  = opaque (sky_purple 512 y + 20, 10, sky_blue 512 y).
Proof.
  intros Hx Hy.
  assert (Hin : In y (range 512)) by now apply In_range.
  destruct (in_split _ _ Hin) as (before & after & Hsplit).
  pose proof (range_NoDup 512) as Hnd. rewrite Hsplit in Hnd.
  apply NoDup_remove_2 in Hnd.
  rewrite Hsplit, map_app. cbn [map].
  rewrite paint_last; [ reflexivity | | | ].
  - apply inside_iff. cbn. lia.
  - cbn. rewrite Z.eqb_refl. cbn.
    apply andb_true_iff. rewrite !Z.leb_le. lia.
  - apply Forall_forall. intros c Hc. apply in_map_iff in Hc as (y' & <- & Hy').
    cbn. rewrite Z.eqb_refl.
    destruct (Z.eqb_spec y y') as [-> | _]; [ | reflexivity ].
    exfalso. apply Hnd. apply in_or_app. now right.
Qed.

(** C5. In the background-gradient stage every row y of 0..511 is filled
    with the single colour (purple + 20, 10, blue), where the script's
    purple = int(60 * (1 - y/height)) is the quotient 60*(512-y)/512, which
    goes linearly from 60 at y = 0 down to 0 at the bottom row, and its
    blue = int(30 + 40 * (y/height)) is 30 + 40*y/512, which goes linearly up
    from 30. *)
Theorem gradient_fills_rows (t : nat -> Z) (x y : Z) :
  0 <= x < 512 -> 0 <= y < 512 ->
  exists s',
    gradient 512 512 (fresh t) = (Ok tt, s') /\
    im_pixel (paint blank_canvas (img_calls s')) x y
      = opaque (sky_purple 512 y + 20, 10, sky_blue 512 y) /\
    trunc (60 * (1 - PrimFloat.div (float_of_int y) (float_of_int 512)))%float
      = inl (sky_purple 512 y) /\
    trunc (30 + 40 * PrimFloat.div (float_of_int y) (float_of_int 512))%float
      = inl (sky_blue 512 y) /\
    sky_purple 512 0 = 60 /\ sky_purple 512 511 = 0 /\ sky_blue 512 0 = 30 /\
    60 * (512 - y) - 512 < 512 * sky_purple 512 y <= 60 * (512 - y) /\
    40 * y - 512 < 512 * (sky_blue 512 y - 30) <= 40 * y /\
    (forall y', y <= y' -> sky_purple 512 y' <= sky_purple 512 y) /\
    (forall y', y <= y' -> sky_blue 512 y <= sky_blue 512 y').
Proof.
  intros Hx Hy.
  destruct (gradient_emits (fresh t)) as ([] & s' & E & d & Hc & ->).
  exists s'. split; [ exact E | ]. split.
  { unfold img_calls. rewrite Hc. cbn [fresh calls app].
    rewrite on_layer_sky. now apply sky_pixel. }
  assert (Hin : In y (range 512)) by now apply In_range.
  pose proof (proj1 (forallb_forall _ _) sky_check_all y Hin) as Hk.
  unfold sky_check in Hk.
  destruct (trunc (60 * _)%float) as [p |] eqn:Ep; [ | discriminate ].
  destruct (trunc (30 + _)%float) as [b |] eqn:Eb; [ | discriminate ].
  apply andb_true_iff in Hk as [Hp Hb]. apply Z.eqb_eq in Hp, Hb. subst p b.
  split; [ reflexivity | ]. split; [ reflexivity | ].
  split; [ reflexivity | ]. split; [ reflexivity | ].
  split; [ reflexivity | ].
  unfold sky_purple, sky_blue.
  pose proof (Z.div_mod (60 * (512 - y)) 512 ltac:(lia)) as D1.
  pose proof (Z.mod_pos_bound (60 * (512 - y)) 512 ltac:(lia)) as M1.
  pose proof (Z.div_mod (40 * y) 512 ltac:(lia)) as D2.
  pose proof (Z.mod_pos_bound (40 * y) 512 ltac:(lia)) as M2.
  split; [ lia | ]. split; [ lia | ]. split.
  - intros y' Hy'. apply Z.div_le_mono; lia.
  - intros y' Hy'.
    assert (40 * y / 512 <= 40 * y' / 512) by (apply Z.div_le_mono; lia).
    lia.
Qed.

End Gradient.

Lemma gradient_fills_rows_witness :
  (0 <= 3 < 512 /\ 0 <= 7 < 512) /\
  exists s',
    gradient 512 512 (fresh (fun _ => 0)) = (Ok tt, s') /\
    im_pixel (paint (P := Raster.pillow) blank_canvas (img_calls s')) 3 7
      = opaque (sky_purple 512 7 + 20, 10, sky_blue 512 7).
Proof.
  split; [ lia | ].
  destruct (gradient_fills_rows (P := Raster.pillow) (fun _ => 0) 3 7)
    as (s' & E & Hpx & _); [ lia | lia | ].
  exists s'. split; assumption.
Defined.

(** *** Colours of the calls *)

Definition ink_ok (c : layer * draw_call) : Prop := pixel_ok (ink (snd c)).

Lemma opaque_ok r g b :
  byte_range r -> byte_range g -> byte_range b -> pixel_ok (opaque (r, g, b)).
Proof. intros. unfold pixel_ok, byte_range in *. cbn. lia. Qed.

Lemma groups_Forall (G : trace -> Prop) (W : layer * draw_call -> Prop) n d :
  (forall g, G g -> Forall W g) -> groups_of G n d -> Forall W d.
Proof.
  intros HG (gs & _ & Hall & ->). apply Forall_concat.
  eapply Forall_impl; [ exact HG | exact Hall ].
Qed.

Lemma neon_colors_ok c : In c neon_colors -> pixel_ok (opaque c).
Proof.
  intros H. repeat (destruct H as [<- | H]; [ apply opaque_ok; cbv; intuition discriminate | ]).
  destruct H.
Qed.

Lemma car_colors_ok c : In c car_colors -> pixel_ok (opaque c).
Proof.
  intros H. repeat (destruct H as [<- | H]; [ apply opaque_ok; cbv; intuition discriminate | ]).
  destruct H.
Qed.

Lemma sky_line_ok y : In y (range 512) -> ink_ok (sky_line 512 512 y).
Proof.
  intros H. apply In_range in H. unfold ink_ok, sky_line. cbn [snd ink].
  pose proof (sky_purple_bounds y H). pose proof (sky_blue_bounds y H).
  apply opaque_ok; unfold byte_range; lia.
Qed.

Lemma building_ok g : is_building 512 512 g -> Forall ink_ok g.
Proof.
  intros (bx & by_ & bw & r & g_ & b & wins & _ & _ & _ & Hc & -> & Hw).
  constructor.
  - apply opaque_ok; unfold byte_range; lia.
  - eapply Forall_impl; [ | exact Hw ].
    intros c (row & col & color & _ & _ & Hcol & ->).
    now apply neon_colors_ok.
Qed.

Lemma trail_color_ok car_color trail_length j :
  In car_color car_colors -> 15 <= trail_length <= 30 ->
  0 <= j < trail_length ->
  pixel_ok (opaque (trail_color car_color trail_length j)).
Proof.
  intros Hc Hl Hj. apply car_colors_saturated in Hc.
  destruct car_color as [[r g] b]. destruct Hc as (Hr & Hg & Hb).
  unfold trail_color.
  pose proof (proj2 (fade_int r trail_length j Hl Hj Hr)).
  pose proof (proj2 (fade_int g trail_length j Hl Hj Hg)).
  pose proof (proj2 (fade_int b trail_length j Hl Hj Hb)).
  apply opaque_ok; unfold byte_range; lia.
Qed.

Lemma car_ok g : is_car 512 512 g -> Forall ink_ok g.
Proof.
  intros (cx & cy & col & l & _ & _ & Hcol & Hl & ->). constructor.
  - now apply car_colors_ok.
  - apply Forall_forall. intros c Hc.
    apply in_map_iff in Hc as (j & <- & Hj). apply In_range in Hj.
    now apply trail_color_ok.
Qed.

Lemma ring_channel_range c glow :
  c = 0 \/ c = 255 -> 0 <= glow < 3 -> byte_range (ring_channel c glow).
Proof.
  intros Hc Hg. unfold byte_range, ring_channel.
  assert (Hcases : glow = 0 \/ glow = 1 \/ glow = 2) by lia.
  destruct Hc as [-> | ->], Hcases as [-> | [-> | ->]]; cbv;
    split; discriminate.
Qed.

Lemma sign_ok g : is_sign 512 512 g -> Forall ink_ok g.
Proof.
  intros (sx & sy & col & _ & _ & Hcol & ->). constructor.
  - now apply car_colors_ok.
  - apply Forall_forall. intros c Hc.
    apply in_map_iff in Hc as (glow & <- & Hg). apply In_range in Hg.
    apply car_colors_saturated in Hcol.
    destruct col as [[r g] b]. destruct Hcol as (Hr & Hgr & Hb).
    unfold ink_ok, ring_call, ring_color. cbn [snd ink].
    apply opaque_ok; now apply ring_channel_range.
Qed.

Lemma streak_ok g : is_streak 512 512 g -> Forall ink_ok g.
Proof.
  intros (rx & ry & _ & _ & ->). constructor; [ | constructor ].
  apply opaque_ok; cbv; intuition discriminate.
Qed.

Lemma spot_ok g : is_spot 512 512 g -> Forall ink_ok g.
Proof.
  intros (gx & gy & radius & _ & _ & Hrad & ->).
  apply Forall_forall. intros c Hc.
  apply in_map_iff in Hc as (r & <- & Hr).
  pose proof (proj2 (disc_int radius r Hrad Hr)).
  unfold ink_ok, disc_call, pixel_ok, byte_range. cbn. lia.
Qed.

Lemma city_trace_ok d : city_trace d -> Forall ink_ok d.
Proof.
  intros (b & c & s & r & g & -> & Hb & Hc & Hs & Hr & Hg).
  repeat (apply Forall_app; split).
  - apply Forall_forall. intros x Hx.
    apply in_map_iff in Hx as (y & <- & Hy). now apply sky_line_ok.
  - eapply groups_Forall; [ exact building_ok | exact Hb ].
  - eapply groups_Forall; [ exact car_ok | exact Hc ].
  - eapply groups_Forall; [ exact sign_ok | exact Hs ].
  - eapply groups_Forall; [ exact streak_ok | exact Hr ].
  - eapply groups_Forall; [ exact spot_ok | exact Hg ].
Qed.

Lemma on_layer_ok l cs :
  Forall ink_ok cs -> Forall (fun c => pixel_ok (ink c)) (on_layer l cs).
Proof.
  intros H. apply Forall_forall. intros c Hc.
  apply on_layer_In in Hc.
  exact (proj1 (Forall_forall _ _) H _ Hc).
Qed.

Lemma firstn_Forall {A} (Q : A -> Prop) n xs :
  Forall Q xs -> Forall Q (firstn n xs).
Proof.
  intros H. rewrite <- (firstn_skipn n xs) in H.
  now apply Forall_app in H.
Qed.

(** *** The rendered image *)

(** The glow layer as created by [Image.new('RGBA', (512, 512), (0, 0, 0, 0))]. *)
Definition blank_glow : image := image_new 512 512 (mk_pixel 0 0 0 0).

Section Rendering.
Context {P : Pillow}.

(** The canvas with the glow layer blended over it. *)
Definition composed (s : painter) : image :=
  alpha_composite (paint blank_canvas (img_calls s))
                  (paint blank_glow (glow_calls s)).

(** Rendering never raises: whatever the generator delivers, the stages
    run to the end and the blurred composite is returned. *)
Lemma render_returns s :
  exists s' d,
    render 512 512 s = (Ok (gaussian_blur 0.5 (composed s')), s') /\
    draw_stages 512 512 s = (Ok tt, s') /\
    calls s' = calls s ++ d /\ rng s' = rng (snd (draw_stages 512 512 s)) /\
    city_trace d.
Proof.
  destruct (draw_stages_emits s) as ([] & s' & E & d & Hc & Hd).
  exists s', d. repeat split; try assumption.
  - unfold render, bind. rewrite E. reflexivity.
  - now rewrite E.
Qed.

Lemma composed_size s : same_size (composed s) blank_canvas.
Proof. exact (paint_size blank_canvas (img_calls s)). Qed.

(** C1. For the one synthesis call, whatever the random draws: every
    colour handed to a drawing call (gradient, building and window fills,
    scaled trail colours, glow rings of the signs, rain, and the glow discs
    with their alpha) has all its channels within 0..255; so has every pixel
    of the canvas and of the glow layer after every call, hence after every
    drawing stage; and so has every pixel after alpha compositing, after the
    blur and after the sharpening pass. *)
Theorem channels_stay_in_range (t : nat -> Z) :
  exists img s',
    render 512 512 (fresh t) = (Ok img, s') /\
    Forall ink_ok (calls s') /\
    (forall n, image_ok (paint blank_canvas (firstn n (img_calls s')))) /\
    (forall n, image_ok (paint blank_glow (firstn n (glow_calls s')))) /\
    image_ok (composed s') /\
    img = gaussian_blur 0.5 (composed s') /\
    image_ok img /\
    image_ok (unsharp_mask 1 150 3 img).
Proof.
  destruct (render_returns (fresh t)) as (s' & d & E & _ & Hc & _ & Hd).
  cbn [fresh calls app] in Hc.
  assert (Hinks : Forall ink_ok (calls s')).
  { rewrite Hc. now apply city_trace_ok. }
  assert (Hblank : image_ok blank_canvas).
  { apply image_new_ok. apply opaque_ok; cbv; intuition discriminate. }
  assert (Hglow0 : image_ok blank_glow).
  { apply image_new_ok. cbv. intuition discriminate. }
  assert (Himg : forall n,
             image_ok (paint blank_canvas (firstn n (img_calls s')))).
  { intros n. apply paint_ok; [ assumption | ].
    apply firstn_Forall. now apply on_layer_ok. }
  assert (Hglow : forall n,
             image_ok (paint blank_glow (firstn n (glow_calls s')))).
  { intros n. apply paint_ok; [ assumption | ].
    apply firstn_Forall. now apply on_layer_ok. }
  assert (Hcomp : image_ok (composed s')).
  { apply alpha_composite_ok.
    - destruct (paint_size blank_canvas (img_calls s')) as [W1 H1].
      destruct (paint_size blank_glow (glow_calls s')) as [W2 H2].
      split; [ now rewrite W1, W2 | now rewrite H1, H2 ].
    - apply paint_ok; [ assumption | now apply on_layer_ok ].
    - apply paint_ok; [ assumption | now apply on_layer_ok ]. }
  exists (gaussian_blur 0.5 (composed s')), s'.
  split; [ exact E | ]. split; [ exact Hinks | ].
  split; [ exact Himg | ]. split; [ exact Hglow | ].
  split; [ exact Hcomp | ]. split; [ reflexivity | ]. split.
  - now apply gaussian_blur_ok.
  - apply unsharp_mask_ok. now apply gaussian_blur_ok.
Qed.

End Rendering.

(** *** Buildings and windows on the canvas *)

Lemma groups_weaken (G G' : trace -> Prop) n d :
  (forall g, G g -> G' g) -> groups_of G n d -> groups_of G' n d.
Proof.
  intros H (gs & Hlen & Hall & ->). exists gs. repeat split; auto.
  eapply Forall_impl; eauto.
Qed.

(** A window rectangle lies inside the rectangle of its building. *)
Lemma window_in_building bx by_ bw bh row col :
  0 <= row < bh / 20 -> 0 <= col < bw / 15 ->
  bx <= bx + col * 15 + 5 /\ bx + col * 15 + 5 + 8 <= bx + bw /\
  by_ <= by_ + row * 20 + 5 /\ by_ + row * 20 + 5 + 12 <= by_ + bh.
Proof.
  intros Hrow Hcol.
  pose proof (Z.mul_div_le bh 20 ltac:(lia)).
  pose proof (Z.mul_div_le bw 15 ltac:(lia)).
  lia.
Qed.

(** C4. For every building (bx, by, bw, bh) and every random draw, each
    window rectangle drawn is the one of a grid cell (row, col) with
    0 <= row < bh // 20 and 0 <= col < bw // 15, with corners
    (bx + col*15 + 5, by + row*20 + 5) and 8 and 12 further, and it lies
    inside the building's rectangle [bx, bx+bw] x [by, by+bh]. *)
Theorem windows_inside_building (bx by_ bw bh : Z) :
  emits (windows bx by_ bw bh)
    (fun _ d =>
       Forall (fun c => exists row col color,
                 0 <= row < bh / 20 /\ 0 <= col < bw / 15 /\
                 c = (draw, Rectangle (bx + col * 15 + 5) (by_ + row * 20 + 5)
                                      (bx + col * 15 + 5 + 8)
                                      (by_ + row * 20 + 5 + 12)
                                      (opaque color)) /\
                 bx <= bx + col * 15 + 5 /\
                 bx + col * 15 + 5 + 8 <= bx + bw /\
                 by_ <= by_ + row * 20 + 5 /\
                 by_ + row * 20 + 5 + 12 <= by_ + bh) d).
Proof.
  eapply emits_weaken; [ apply windows_emits | ].
  intros [] d H. eapply Forall_impl; [ | exact H ].
  intros c (row & col & color & Hrow & Hcol & _ & ->).
  exists row, col, color.
  pose proof (window_in_building bx by_ bw bh row col Hrow Hcol).
  repeat split; try tauto; try lia.
Qed.

(** C3, as the code has it. For each of the 15 buildings and every random
    draw: the left edge bx is at least 0; the right edge bx + bw is at most
    the width 512, one column past the last one; the top edge by lies in
    height // 3 .. height - 50, that is 170..462; and the bottom edge
    by + bh is the height 512 itself, one row past the last one. *)
Theorem building_rectangles :
  emits (skyscrapers 512 512)
    (fun _ d =>
       groups_of (fun g => exists bx by_ bw bh fill wins,
                    g = (draw, Rectangle bx by_ (bx + bw) (by_ + bh) fill)
                        :: wins /\
                    0 <= bx /\ bx + bw <= 512 /\
                    170 <= by_ <= 462 /\ by_ + bh = 512 /\
                    Forall (is_window bx by_ bw bh) wins) 15 d).
Proof.
  eapply emits_weaken; [ apply skyscrapers_emits | ].
  intros [] d H. eapply groups_weaken; [ | exact H ].
  intros g (bx & by_ & bw & r & g_ & b & wins & Hbx & Hby & Hbw & _ & -> & Hw).
  exists bx, by_, bw, (512 - by_), (opaque (r, g_, b)), wins.
  change (512 / 3) with 170 in Hby.
  repeat split; try assumption; lia.
Qed.

(** A generator that delivers 432 for bx and 50 for bw. *)
Definition tape_wide : nat -> Z :=
  fun n => match n with 0%nat => 432 | 2%nat => 50 | _ => 0 end.

(** C3 as stated fails. With a generator that delivers zeros the first
    building is [0, 170, 30, 512]: its bottom edge is row 512, past the
    last row 511. With 432 and 50 delivered for bx and bw it is
    [432, 170, 512, 512]: its right edge is column 512, past the last
    column 511. *)
Lemma building_edges_past_the_canvas :
  (fst (skyscraper 512 512 (fresh (fun _ => 0))) = Ok tt /\
   calls (snd (skyscraper 512 512 (fresh (fun _ => 0))))
     = [(draw, Rectangle 0 170 30 512 (opaque (10, 10, 10)))] /\
   ~ 512 <= 512 - 1) /\
  (fst (skyscraper 512 512 (fresh tape_wide)) = Ok tt /\
   calls (snd (skyscraper 512 512 (fresh tape_wide)))
     = [(draw, Rectangle 432 170 512 512 (opaque (10, 10, 10)))]).
Proof.
  repeat split; try (vm_compute; reflexivity). lia.
Qed.

(** *** Lit and unlit windows *)



(** The float comparison agrees with [gt_0_3] on both sides of the
    threshold. *)
Lemma gt_0_3_float_boundary :
  PrimFloat.ltb 0.3 (PrimFloat.div (float_of_int 2702159776422298)
                                   (float_of_int (2 ^ 53))) = true /\
  PrimFloat.ltb 0.3 (PrimFloat.div (float_of_int 2702159776422297)
                                   (float_of_int (2 ^ 53))) = false /\
  gt_0_3 2702159776422298 = true /\ gt_0_3 2702159776422297 = false.
Proof. repeat split; vm_compute; reflexivity. Qed.


Lemma on_layer_draw_cons c cs :
  on_layer draw ((draw, c) :: cs) = c :: on_layer draw cs.
Proof. reflexivity. Qed.

Section Windows.
Context {P : Pillow}.




End Windows.

(** *** Neon signs and their rings *)

Definition brightness (c : color) : Z := let '(r, g, b) := c in r + g + b.

(** The channels of [a] are [k] fifths of those of [b]. *)
Definition fifths (k : Z) (a b : color) : Prop :=
  let '(r, g, bl) := a in
  let '(r', g', bl') := b in
  5 * r = k * r' /\ 5 * g = k * g' /\ 5 * bl = k * bl'.

(** C7. Each of the 6 signs is an outline of width 2 followed by three more
    outlines of width 1: the first on the sign's own box, each next one
    1 pixel further out on every side, in the sign's colour scaled by 0.8,
    0.6 and 0.4, so that the brightness goes strictly down from the sign to
    the last ring. *)
Theorem sign_glow_rings :
  emits (neon_signs 512 512)
    (fun _ d =>
       groups_of (fun g => exists sx sy sign_color ring0 ring1 ring2,
         In sign_color car_colors /\
         g = [ (draw, Outline sx sy (sx + 60) (sy + 20) (opaque sign_color) 2);
               (draw, Outline sx sy (sx + 60) (sy + 20) (opaque ring0) 1);
               (draw, Outline (sx - 1) (sy - 1) (sx + 60 + 1) (sy + 20 + 1)
                              (opaque ring1) 1);
               (draw, Outline (sx - 1 - 1) (sy - 1 - 1)
                              (sx + 60 + 1 + 1) (sy + 20 + 1 + 1)
                              (opaque ring2) 1) ] /\
         fifths 4 ring0 sign_color /\ fifths 3 ring1 sign_color /\
         fifths 2 ring2 sign_color /\
         brightness ring2 < brightness ring1 /\
         brightness ring1 < brightness ring0 /\
         brightness ring0 < brightness sign_color) 6 d).
Proof.
  eapply emits_weaken; [ apply neon_signs_emits | ].
  intros [] d H. eapply groups_weaken; [ | exact H ].
  intros g (sx & sy & c & _ & _ & Hc & ->).
  exists sx, sy, c, (ring_color c 0), (ring_color c 1), (ring_color c 2).
  split; [ exact Hc | ]. split.
  - change (range 3) with [0; 1; 2]. cbn [map]. unfold ring_call.
    replace (sx - 0) with sx by lia. replace (sy - 0) with sy by lia.
    replace (sx + 60 + 0) with (sx + 60) by lia.
    replace (sy + 20 + 0) with (sy + 20) by lia.
    replace (sx - 2) with (sx - 1 - 1) by lia.
    replace (sy - 2) with (sy - 1 - 1) by lia.
    replace (sx + 60 + 2) with (sx + 60 + 1 + 1) by lia.
    replace (sy + 20 + 2) with (sy + 20 + 1 + 1) by lia.
    reflexivity.
  - destruct Hc as [<- | [<- | [<- | []]]]; vm_compute; intuition congruence.
Qed.

(* ================================================================== *)
(** ** The entry point and the disk *)
(* ================================================================== *)

Definition base_file : string := "ai-output/cyberpunk-city.png".
Definition enhanced_file : string := "ai-output/cyberpunk-city-enhanced.png".

Section EntryPoint.
Context {P : Pillow}.

(** The painter once the stages have run from the world's generator, the
    image the call renders and its sharpened variant. *)
Definition painted (w : world) : painter :=
  snd (draw_stages 512 512 (fresh (w_rng w))).

Definition rendered (w : world) : image :=
  gaussian_blur 0.5 (composed (painted w)).

Definition enhanced (w : world) : image := unsharp_mask 1 150 3 (rendered w).

Lemma with_painter_render w :
  with_painter (render 512 512) w
  = (Ok (rendered w), with_rng (rng (painted w)) w).
Proof.
  unfold with_painter, rendered, painted.
  destruct (render_returns (fresh (w_rng w))) as (s' & d & E & Ed & _).
  change (mk_painter (w_rng w) []) with (fresh (w_rng w)).
  rewrite E, Ed. reflexivity.
Qed.

(** The four ways a call can end: the directory, the first file or the
    second file is refused, or everything is written. Rendering itself
    never fails. *)
Definition started (w : world) : world :=
  logged (Stdout "Creating cyberpunk city artwork...") w.

Definition drawn (w : world) : world :=
  with_rng (rng (painted w)) (with_dir "ai-output" (started w)).

Definition base_saved (w : world) : world :=
  logged (Stdout "Cyberpunk city artwork saved to: ai-output/cyberpunk-city.png")
         (with_file base_file (rendered w) (drawn w)).

Definition both_saved (w : world) : world :=
  logged (Stdout "Enhanced version saved to: ai-output/cyberpunk-city-enhanced.png")
         (with_file enhanced_file (enhanced w) (base_saved w)).

Lemma create_cases w :
  create_cyberpunk_city w =
    if os_refuses w "ai-output" then (Raise (OSError "ai-output"), started w)
    else if os_refuses w base_file then (Raise (OSError base_file), drawn w)
    else if os_refuses w enhanced_file
         then (Raise (OSError enhanced_file), base_saved w)
         else (Ok (base_file, enhanced_file), both_saved w).
Proof.
  unfold create_cyberpunk_city.
  unfold bind at 1. cbn [print modify].
  unfold bind at 1. unfold makedirs at 1.
  cbn [os_refuses with_rng with_dir with_file logged].
  destruct (os_refuses w "ai-output") eqn:E0; [ reflexivity | ].
  unfold bind at 1. rewrite with_painter_render.
  unfold bind at 1. unfold save at 1.
  cbn [os_refuses with_rng with_dir with_file logged].
  fold base_file.
  destruct (os_refuses w base_file) eqn:E1.
  { unfold drawn, started, painted.
    cbn [w_rng os_refuses with_rng with_dir with_file logged console dirs files].
    reflexivity. }
  unfold bind at 1. cbn [print modify].
  unfold bind at 1. unfold save at 1.
  cbn [os_refuses with_rng with_dir with_file logged].
  fold enhanced_file.
  destruct (os_refuses w enhanced_file) eqn:E2.
  { unfold base_saved, drawn, started, rendered, painted.
    cbn [w_rng os_refuses with_rng with_dir with_file logged console dirs files].
    reflexivity. }
  unfold bind at 1. cbn [print modify ret].
  unfold both_saved, enhanced, base_saved, drawn, started, rendered, painted.
  cbn [w_rng os_refuses with_rng with_dir with_file logged console dirs files].
  reflexivity.
Qed.

(** The entry point reports a success or catches the failure. *)
Lemma main_cases w :
  main w =
    match create_cyberpunk_city w with
    | (Ok paths, w') =>
        (Ok tt,
         logged (Stdout ("  - " ++ snd paths))
           (logged (Stdout ("  - " ++ fst paths))
              (logged (Stdout "Generated files:")
                 (logged (Stdout "✅ Success! Cyberpunk city artwork created.")
                         w'))))
    | (Raise e, w') =>
        (Ok tt,
         logged (Traceback e)
           (logged (Stdout ("❌ Error creating artwork: " ++ str e)) w'))
    end.
Proof.
  unfold main, try_except. unfold bind at 1.
  destruct (create_cyberpunk_city w) as [[paths | e] w']; reflexivity.
Qed.



(** A generator whose 601st output, the x of the first car, is 512. *)
Definition tape_car : nat -> Z := fun n => if Nat.eqb n 600 then 512 else 0.

(** C10. Calls are issued with coordinates outside the canvas: a car
    centred on x = 512 has the box [509, 126, 515, 130], past the right
    edge, and a rain streak starting at x = 0 ends at x = -2. Whatever the
    generator delivers, no stage raises, a call changes no pixel outside
    the image, and after every call both images still are 512 x 512. *)
Theorem out_of_canvas_calls_are_clipped (t : nat -> Z) :
  (exists s',
     draw_stages 512 512 (fresh t) = (Ok tt, s') /\
     forall n,
       same_size (paint blank_canvas (firstn n (img_calls s'))) blank_canvas /\
       same_size (paint blank_glow (firstn n (glow_calls s'))) blank_glow) /\
  (forall im c x y,
     inside im x y = false ->
     im_pixel (draw_on im c) x y = im_pixel im x y) /\
  (forall im c, same_size (draw_on im c) im) /\
  (nth 527 (calls (snd (draw_stages 512 512 (fresh tape_car))))
       (draw, Line 0 0 0 0 (opaque (0, 0, 0)) 0)
   = (draw, Ellipse 509 126 515 130 (opaque (255, 0, 255))) /\
   512 <= 515) /\
  (nth 679 (calls (snd (draw_stages 512 512 (fresh (fun _ => 0)))))
       (draw, Line 0 0 0 0 (opaque (0, 0, 0)) 0)
   = (draw, Line 0 0 (-2) 15 (opaque (100, 150, 200)) 1) /\
   -2 < 0).
Proof.
  split.
  { destruct (render_returns (fresh t)) as (s' & d & _ & E & _).
    exists s'. split; [ exact E | ].
    intros n. split; apply paint_size. }
  split.
  { intros im c x y Hout. cbn. rewrite Hout. reflexivity. }
  split.
  { intros im c. split; reflexivity. }
  split; (split; [ vm_compute; reflexivity | lia ]).
Qed.

End EntryPoint.

(** *** Runs on given worlds *)





(* ================================================================== *)
(** ** The generator decides the picture *)
(* ================================================================== *)

(** Two streams of raw outputs that agree on their first [n]. *)
Definition agree (n : nat) (t1 t2 : nat -> Z) : Prop :=
  forall i, (i < n)%nat -> t1 i = t2 i.

(** [reads n m R]: [m] takes at most [n] outputs from the generator, and
    from two states with the same calls and generators that agree on [n]
    outputs it ends alike, with the same calls, having taken the same
    number of outputs; a value it returns satisfies [R]. *)
Definition reads {A} (n : nat) (m : ST painter A) (R : A -> Prop) : Prop :=
  forall s1 s2,
    calls s1 = calls s2 -> agree n (rng s1) (rng s2) ->
    fst (m s1) = fst (m s2) /\
    calls (snd (m s1)) = calls (snd (m s2)) /\
    (forall a, fst (m s1) = Ok a -> R a) /\
    exists k, (k <= n)%nat /\
      (forall i, rng (snd (m s1)) i = rng s1 (k + i)%nat) /\
      (forall i, rng (snd (m s2)) i = rng s2 (k + i)%nat).







Lemma reads_next_raw : reads 1 next_raw (fun _ => True).
Proof.
  intros s1 s2 Hc Ha. cbn. rewrite (Ha 0%nat) by lia.
  repeat split; auto. exists 1%nat. repeat split; auto.
Qed.








Lemma range_len n : List.length (range n) = Z.to_nat n.
Proof. unfold range. now rewrite length_map, length_seq. Qed.













Section Determinism.
Context {P : Pillow}.




End Determinism.


Definition quiet_world : world :=
  mk_world (fun _ => 0) [] [] [] (fun _ => false).


(* ================================================================== *)
(** * Further properties of the scripts *)
(* ================================================================== *)

From Stdlib Require Import DecimalString.

(* ================================================================== *)
(** ** More on the stages *)
(* ================================================================== *)

(** *** The windows of one building *)

(** A loop whose passes each add calls that answer to keys of their own:
    the keys of the whole loop are distinct. *)
Lemma emits_for_each_keyed {A K} (xs : list A) (body : A -> ST painter unit)
  (Own : A -> K -> Prop) (G : K -> layer * draw_call -> Prop) :
  NoDup xs ->
  (forall x x' k, Own x k -> Own x' k -> x = x') ->
  (forall x, In x xs ->
     emits (body x)
           (fun _ d => exists keys,
              NoDup keys /\ Forall (Own x) keys /\ Forall2 G keys d)) ->
  emits (for_each xs body)
        (fun _ d => exists keys,
           NoDup keys /\
           Forall (fun k => exists x, In x xs /\ Own x k) keys /\
           Forall2 G keys d).
Proof.
  intros Hnd Hown. induction xs as [| x xs IH]; intros Hbody; cbn [for_each].
  - apply emits_ret. exists []. repeat constructor.
  - inversion Hnd as [| ? ? Hx Hxs]; subst.
    eapply emits_bind; [ apply Hbody; now left | ].
    intros [] d1 (k1 & N1 & O1 & F1).
    eapply emits_weaken; [ apply (IH Hxs) | ].
    + intros y Hy. apply Hbody. now right.
    + intros [] d2 (k2 & N2 & O2 & F2). exists (k1 ++ k2). split; [ | split ].
      * apply NoDup_app; try assumption. intros k Hk1 Hk2.
        pose proof (proj1 (Forall_forall _ _) O1 k Hk1) as H1.
        destruct (proj1 (Forall_forall _ _) O2 k Hk2) as (x' & Hx' & H2).
        rewrite (Hown _ _ _ H1 H2) in Hx. contradiction.
      * apply Forall_app. split.
        -- eapply Forall_impl; [ | exact O1 ]. intros k Hk.
           exists x. split; [ now left | exact Hk ].
        -- eapply Forall_impl; [ | exact O2 ]. intros k (x' & Hx' & Hk).
           exists x'. split; [ now right | exact Hk ].
      * now apply Forall2_app.
Qed.

(** The call of a lit window of the cell [(row, col)]. *)
Definition lit_window (bx by_ : Z) (cell : Z * Z) (c : layer * draw_call)
  : Prop :=
  exists color, In color neon_colors /\
                c = window_call bx by_ (fst cell) (snd cell) color.

(** The windows loop lights each cell at most once. *)
Lemma windows_keyed bx by_ bw bh :
  emits (windows bx by_ bw bh)
        (fun _ d => exists cells,
           NoDup cells /\
           Forall (fun cell => 0 <= fst cell < bh / 20 /\
                               0 <= snd cell < bw / 15) cells /\
           Forall2 (lit_window bx by_) cells d).
Proof.
  unfold windows.
  eapply emits_weaken.
  - apply emits_for_each_keyed
      with (Own := fun row (cell : Z * Z) =>
                     fst cell = row /\ 0 <= snd cell < bw / 15)
           (G := lit_window bx by_).
    + apply range_NoDup.
    + intros x x' k [H1 _] [H2 _]. congruence.
    + intros row Hrow. eapply emits_weaken.
      * apply emits_for_each_keyed
          with (Own := fun col (cell : Z * Z) => cell = (row, col))
               (G := lit_window bx by_).
        -- apply range_NoDup.
        -- intros x x' k H1 H2. congruence.
        -- intros col Hcol. eapply emits_weaken; [ apply window_cell_emits | ].
           intros [] d [-> | (color & Hc & ->)].
           ++ exists []. repeat constructor.
           ++ exists [(row, col)]. split; [ | split ].
              ** repeat constructor. intros [].
              ** repeat constructor.
              ** repeat constructor. now exists color.
      * intros [] d (keys & Hnd & Hown & Hf). exists keys.
        split; [ assumption | ]. split; [ | assumption ].
        eapply Forall_impl; [ | exact Hown ].
        intros k (col & Hcol & ->). apply In_range in Hcol. cbn. auto.
  - intros [] d (keys & Hnd & Hown & Hf). exists keys.
    split; [ assumption | ]. split; [ | assumption ].
    eapply Forall_impl; [ | exact Hown ].
    intros k (row & Hrow & <- & Hcol). apply In_range in Hrow. auto.
Qed.

(** Two filled rectangles with no pixel in common. *)
Definition rect_apart (a b : draw_call) : Prop :=
  match a, b with
  | Rectangle ax0 ay0 ax1 ay1 _, Rectangle bx0 by0 bx1 by1 _ =>
      ax1 < bx0 \/ bx1 < ax0 \/ ay1 < by0 \/ by1 < ay0
  | _, _ => False
  end.

Lemma windows_of_cells_apart bx by_ cell cell' c c' :
  cell <> cell' -> lit_window bx by_ cell c -> lit_window bx by_ cell' c' ->
  rect_apart (snd c) (snd c').
Proof.
  intros Hne (k & _ & ->) (k' & _ & ->).
  destruct cell as [row col], cell' as [row' col']. cbn.
  destruct (Z.eq_dec row row') as [-> | Hr];
    [ destruct (Z.eq_dec col col') as [-> | Hc]; [ congruence | ] | ]; lia.
Qed.

Lemma Forall2_In_r {A B} (R : A -> B -> Prop) xs ys y :
  Forall2 R xs ys -> In y ys -> exists x, In x xs /\ R x y.
Proof.
  induction 1 as [| x0 y0 xs ys H0 _ IH]; intros Hin; [ destruct Hin | ].
  destruct Hin as [<- | Hin].
  - exists x0. split; [ now left | assumption ].
  - destruct (IH Hin) as (x & Hx & Hr). exists x. split; [ now right | assumption ].
Qed.

Lemma lit_windows_apart bx by_ cells d :
  NoDup cells -> Forall2 (lit_window bx by_) cells d ->
  ForallOrdPairs (fun a b => rect_apart (snd a) (snd b)) d.
Proof.
  intros Hnd Hf. induction Hf as [| cell c cells d Hc Hf IH].
  - constructor.
  - inversion Hnd as [| ? ? Hnotin Hnd']; subst. constructor.
    + apply Forall_forall. intros c' Hc'.
      destruct (Forall2_In_r _ _ _ _ Hf Hc') as (cell' & Hin & Hl).
      apply (windows_of_cells_apart bx by_ cell cell'); try assumption.
      intros ->. contradiction.
    + now apply IH.
Qed.

Lemma cells_count (rows cols : Z) (cells : list (Z * Z)) :
  NoDup cells ->
  Forall (fun cell => 0 <= fst cell < rows /\ 0 <= snd cell < cols) cells ->
  (List.length cells <= Z.to_nat rows * Z.to_nat cols)%nat.
Proof.
  intros Hnd Hall.
  rewrite <- (range_len rows), <- (range_len cols), <- length_prod.
  apply NoDup_incl_length; [ assumption | ].
  intros [row col] Hin.
  pose proof (proj1 (Forall_forall _ _) Hall _ Hin) as [Hr Hc]. cbn in *.
  apply in_prod; now apply In_range.
Qed.

(** X1. Whatever the generator delivers, a building is drawn as its
    rectangle followed by at most 85 window rectangles, each 9 by 13
    pixels, each entirely inside the canvas (columns 5..510, rows
    175..509), and no two of them sharing a pixel. *)
Theorem windows_fit_and_do_not_overlap :
  emits (skyscraper 512 512)
    (fun _ d => exists building wins,
       d = building :: wins /\
       (List.length wins <= 85)%nat /\
       Forall (fun c => exists x0 y0 fill,
                 c = (draw, Rectangle x0 y0 (x0 + 8) (y0 + 12) fill) /\
                 5 <= x0 /\ x0 + 8 <= 510 /\ 175 <= y0 /\ y0 + 12 <= 509)
              wins /\
       ForallOrdPairs (fun a b => rect_apart (snd a) (snd b)) wins).
Proof.
  unfold skyscraper.
  eapply emits_after_silent; [ apply silent_randint; lia | intros bx Hbx ].
  eapply emits_after_silent;
    [ apply silent_randint; cbv; discriminate | intros by_ Hby ].
  eapply emits_after_silent; [ apply silent_randint; lia | intros bw Hbw ].
  eapply emits_after_silent; [ apply silent_randint; lia | intros r Hr ].
  eapply emits_after_silent; [ apply silent_randint; lia | intros g Hg ].
  eapply emits_after_silent; [ apply silent_randint; lia | intros b Hb ].
  apply emits_after_issue. cbn beta in *. change (512 / 3) with 170 in Hby.
  eapply emits_weaken; [ apply windows_keyed | ].
  intros [] wins (cells & Hnd & Hcells & Hf).
  eexists _, wins. split; [ reflexivity | ].
  assert (Hrows : 0 <= (512 - by_) / 20 <= 17).
  { split; [ apply Z.div_pos; lia | ].
    apply Z.lt_succ_r. apply Z.div_lt_upper_bound; lia. }
  assert (Hcols : 0 <= bw / 15 <= 5).
  { split; [ apply Z.div_pos; lia | ].
    apply Z.lt_succ_r. apply Z.div_lt_upper_bound; lia. }
  split; [ | split ].
  - rewrite <- (Forall2_length Hf).
    pose proof (cells_count _ _ cells Hnd Hcells). nia.
  - apply Forall_forall. intros c Hc.
    destruct (Forall2_In_r _ _ _ _ Hf Hc) as ([row col] & Hin & color & _ & ->).
    pose proof (proj1 (Forall_forall _ _) Hcells _ Hin) as [Hrow Hcol].
    cbn [fst snd] in *.
    pose proof (window_in_building bx by_ bw (512 - by_) row col Hrow Hcol).
    pose proof (Z.mul_div_le (512 - by_) 20 ltac:(lia)).
    pose proof (Z.mul_div_le bw 15 ltac:(lia)).
    eexists _, _, _. split; [ reflexivity | ]. lia.
  - exact (lit_windows_apart bx by_ cells wins Hnd Hf).
Qed.

(** *** The light trail of a car *)

(** Along a trail the scaled channel never grows: all pairs of positions
    of all trail lengths, for a channel of 255. *)
Definition fade_order_check (trail_length : Z) : bool :=
  forallb (fun j =>
             forallb (fun j' =>
                        (j' <? j)
                        || ((to_Z (fade 255 trail_length j')
                             <=? to_Z (fade 255 trail_length j))
                            && (4 <=? to_Z (fade 255 trail_length j'))))
                     (range trail_length))
          (range trail_length).

Lemma fade_order_check_all :
  forallb fade_order_check (range_from 15 16) = true.
Proof. vm_compute. reflexivity. Qed.

Lemma fade_zero_check_all :
  forallb (fun l => forallb (fun j => to_Z (fade 0 l j) =? 0) (range l))
          (range_from 15 16) = true.
Proof. vm_compute. reflexivity. Qed.

Lemma fade_order trail_length j j' :
  15 <= trail_length <= 30 -> 0 <= j <= j' -> j' < trail_length ->
  4 <= to_Z (fade 255 trail_length j') <= to_Z (fade 255 trail_length j) /\
  to_Z (fade 0 trail_length j) = 0.
Proof.
  intros Hl Hj Hj'.
  assert (Hinl : In trail_length (range_from 15 16))
    by (apply In_range_from; lia).
  assert (Hinj : In j (range trail_length)) by (apply In_range; lia).
  assert (Hinj' : In j' (range trail_length)) by (apply In_range; lia).
  split.
  - pose proof (proj1 (forallb_forall _ _) fade_order_check_all _ Hinl) as H.
    unfold fade_order_check in H.
    pose proof (proj1 (forallb_forall _ _) H _ Hinj) as H1. cbn beta in H1.
    pose proof (proj1 (forallb_forall _ _) H1 _ Hinj') as H2. cbn beta in H2.
    apply orb_true_iff in H2 as [H2 | H2]; [ apply Z.ltb_lt in H2; lia | ].
    apply andb_true_iff in H2 as [Ha Hb].
    apply Z.leb_le in Ha, Hb. lia.
  - pose proof (proj1 (forallb_forall _ _) fade_zero_check_all _ Hinl) as H.
    cbn beta in H.
    pose proof (proj1 (forallb_forall _ _) H _ Hinj) as H1.
    now apply Z.eqb_eq in H1.
Qed.

(** Channel by channel, [a] is no brighter than [b]. *)
Definition no_brighter (a b : color) : Prop :=
  let '(r, g, bl) := a in
  let '(r', g', bl') := b in
  r <= r' /\ g <= g' /\ bl <= bl'.

(** X2. Whatever the generator delivers, each of the 8 cars is an ellipse
    of 7 by 5 pixels centred on (cx, cy), with cx in 0..512 and cy in
    128..256, followed by a trail of 15 to 30 ellipses of 3 by 3 pixels,
    the j-th centred on (cx - j, cy). Along the trail the colour never
    gets brighter, it starts at less than half the car's colour
    (127 for a channel of 255) and it never fades to black: a channel of
    255 stays at 4 or more. *)
Theorem car_trails_fade :
  emits (flying_cars 512 512)
    (fun _ d =>
       groups_of (fun g => exists cx cy car_color trail_length,
         0 <= cx <= 512 /\ 128 <= cy <= 256 /\
         In car_color car_colors /\ 15 <= trail_length <= 30 /\
         g = (draw, Ellipse (cx - 3) (cy - 2) (cx + 3) (cy + 2)
                            (opaque car_color))
             :: map (fun j => (draw, Ellipse (cx - j - 1) (cy - 1)
                                             (cx - j + 1) (cy + 1)
                                       (opaque (trail_color car_color
                                                  trail_length j))))
                    (range trail_length) /\
         List.length g = S (Z.to_nat trail_length) /\
         (forall j j', 0 <= j <= j' -> j' < trail_length ->
            no_brighter (trail_color car_color trail_length j')
                        (trail_color car_color trail_length j) /\
            8 <= brightness (trail_color car_color trail_length j') /\
            brightness (trail_color car_color trail_length j) <= 254))
       8 d).
Proof.
  eapply emits_weaken; [ apply flying_cars_emits | ].
  intros [] d H. eapply groups_weaken; [ | exact H ].
  intros g (cx & cy & col & l & Hcx & Hcy & Hcol & Hl & ->).
  exists cx, cy, col, l.
  change (512 / 4) with 128 in Hcy. change (512 / 2) with 256 in Hcy.
  repeat (split; [ assumption || reflexivity | ]).
  split.
  { cbn [List.length]. now rewrite length_map, range_len. }
  intros j j' Hj Hj'.
  pose proof (fade_order l j j' Hl Hj Hj') as [H255 H0].
  pose proof (fade_order l j' j' Hl ltac:(lia) Hj') as [_ H0'].
  pose proof (proj2 (fade_int 255 l j Hl ltac:(lia) ltac:(auto))) as Hhalf.
  destruct Hcol as [<- | [<- | [<- | []]]];
    unfold trail_color, no_brighter, brightness;
    rewrite ?H0, ?H0'; lia.
Qed.

(** *** The discs of a glow spot *)

Lemma In_range3_down radius r :
  0 < radius ->
  In r (range3 radius 0 (-5)) <->
  0 < r <= radius /\ (radius - r) mod 5 = 0.
Proof.
  intros Hrad. unfold range3. cbn [Z.ltb Z.compare].
  replace (radius - 0 - -5 - 1) with (radius + 4) by lia.
  change (- -5) with 5.
  pose proof (Z.div_mod (radius + 4) 5 ltac:(lia)) as D.
  pose proof (Z.mod_pos_bound (radius + 4) 5 ltac:(lia)) as M.
  rewrite in_map_iff. split.
  - intros (i & <- & Hi). apply in_seq in Hi.
    assert (Z.of_nat i < (radius + 4) / 5) by lia.
    split; [ lia | ].
    replace (radius - (radius + Z.of_nat i * -5)) with (Z.of_nat i * 5) by lia.
    apply Z.mod_mul. lia.
  - intros [Hr Hm].
    pose proof (Z.div_mod (radius - r) 5 ltac:(lia)) as D'.
    rewrite Hm in D'.
    exists (Z.to_nat ((radius - r) / 5)).
    assert (0 <= (radius - r) / 5) by (apply Z.div_pos; lia).
    split; [ lia | ]. apply in_seq. lia.
Qed.

Lemma range3_down_length radius :
  0 < radius ->
  Z.of_nat (List.length (range3 radius 0 (-5))) = (radius + 4) / 5.
Proof.
  intros Hrad. unfold range3. cbn [Z.ltb Z.compare].
  rewrite length_map, length_seq.
  replace (radius - 0 - -5 - 1) with (radius + 4) by lia.
  change (- -5) with 5.
  assert (0 <= (radius + 4) / 5) by (apply Z.div_pos; lia). lia.
Qed.

Lemma disc_alpha_grows radius r r' :
  30 <= radius <= 80 -> 0 < r' -> r' + 5 <= r -> r <= radius ->
  disc_alpha radius r < disc_alpha radius r'.
Proof.
  intros Hrad Hr' Hstep Hr. unfold disc_alpha.
  assert (H : 30 * (radius - r) / radius + 1
              <= 30 * (radius - r') / radius).
  { rewrite <- (Z.div_add _ 1 radius) by lia.
    apply Z.div_le_mono; lia. }
  lia.
Qed.

(** X3. Whatever the generator delivers, each of the 10 glow spots is a
    stack of 6 to 16 discs on the glow layer, all centred on (gx, gy) with
    gx in 0..512 and gy in 0..256: the radii go down from the radius drawn
    (30..80) in steps of 5 and stay positive, the colour is (255, 100, 255),
    and the alpha is 0 for the outermost disc, grows strictly from each
    disc to the next smaller one and stays below 30. *)
Theorem glow_spots_brighten_inwards :
  emits (atmospheric_glow 512 512)
    (fun _ d =>
       groups_of (fun g => exists gx gy radius,
         0 <= gx <= 512 /\ 0 <= gy <= 256 /\ 30 <= radius <= 80 /\
         g = map (fun r => (glow_draw,
                            Ellipse (gx - r) (gy - r) (gx + r) (gy + r)
                                    (mk_pixel 255 100 255
                                              (disc_alpha radius r))))
                 (range3 radius 0 (-5)) /\
         6 <= Z.of_nat (List.length g) <= 16 /\
         (forall r, In r (range3 radius 0 (-5)) <->
                    0 < r <= radius /\ (radius - r) mod 5 = 0) /\
         disc_alpha radius radius = 0 /\
         (forall r r', In r (range3 radius 0 (-5)) ->
                       In r' (range3 radius 0 (-5)) -> r' < r ->
                       disc_alpha radius r < disc_alpha radius r' < 30))
       10 d).
Proof.
  eapply emits_weaken; [ apply atmospheric_glow_emits | ].
  intros [] d H. eapply groups_weaken; [ | exact H ].
  intros g (gx & gy & radius & Hgx & Hgy & Hrad & ->).
  exists gx, gy, radius. change (512 / 2) with 256 in Hgy.
  repeat (split; [ assumption || reflexivity | ]).
  split.
  { rewrite length_map, range3_down_length by lia.
    split.
    - apply Z.div_le_lower_bound; lia.
    - apply Z.lt_succ_r. apply Z.div_lt_upper_bound; lia. }
  split; [ intros r; apply In_range3_down; lia | ].
  split.
  { unfold disc_alpha. rewrite Z.sub_diag. reflexivity. }
  intros r r' Hr Hr' Hlt.
  pose proof (proj2 (disc_int radius r' Hrad Hr')) as Hlim.
  apply In_range3_down in Hr, Hr'; try lia.
  destruct Hr as [Hr Hm], Hr' as [Hr' Hm'].
  split; [ | lia ].
  apply disc_alpha_grows; try lia.
  pose proof (Z.div_mod (radius - r) 5 ltac:(lia)) as D.
  pose proof (Z.div_mod (radius - r') 5 ltac:(lia)) as D'.
  rewrite Hm in D. rewrite Hm' in D'. lia.
Qed.

(** *** The glow over the canvas *)

(** Which of the two images the calls of a stage are made on. *)
Lemma building_on_canvas g :
  is_building 512 512 g -> Forall (fun c => fst c = draw) g.
Proof.
  intros (bx & by_ & bw & r & g_ & b & wins & _ & _ & _ & _ & -> & Hw).
  constructor; [ reflexivity | ].
  eapply Forall_impl; [ | exact Hw ].
  intros c (row & col & color & _ & _ & _ & ->). reflexivity.
Qed.

Lemma spot_on_glow_layer g :
  is_spot 512 512 g ->
  Forall (fun c => fst c = glow_draw /\
                   exists a, 0 <= a < 30 /\
                             ink (snd c) = mk_pixel 255 100 255 a) g.
Proof.
  intros (gx & gy & radius & _ & _ & Hrad & ->).
  apply Forall_forall. intros c Hc.
  apply in_map_iff in Hc as (r & <- & Hr).
  split; [ reflexivity | ].
  exists (disc_alpha radius r). split; [ | reflexivity ].
  exact (proj2 (disc_int radius r Hrad Hr)).
Qed.

Lemma on_layer_Forall l (Q : draw_call -> Prop) cs :
  Forall (fun c => fst c = l -> Q (snd c)) cs -> Forall Q (on_layer l cs).
Proof.
  intros H. apply Forall_forall. intros c Hc.
  apply on_layer_In in Hc.
  exact (proj1 (Forall_forall _ _) H _ Hc eq_refl).
Qed.

(** A glow pixel: nothing, or the glow colour at an alpha below 30. *)
Definition faint_glow (p : pixel) : Prop :=
  p = mk_pixel 0 0 0 0 \/
  exists a, 0 <= a < 30 /\ p = mk_pixel 255 100 255 a.

Lemma city_trace_glow d :
  city_trace d ->
  Forall (fun c => fst c = glow_draw -> faint_glow (ink (snd c))) d.
Proof.
  intros (b & c & s & r & g & -> & Hb & Hc & Hs & Hr & Hg).
  assert (Hdraw : forall (G : trace -> Prop) n l,
             (forall g, G g -> Forall (fun c => fst c = draw) g) ->
             groups_of G n l ->
             Forall (fun c => fst c = glow_draw ->
                              faint_glow (ink (snd c))) l).
  { intros G n l HG Hl.
    eapply Forall_impl; [ | exact (groups_Forall _ _ _ _ HG Hl) ].
    intros x Hx Hx'. congruence. }
  repeat (apply Forall_app; split).
  - apply Forall_forall. intros x Hx.
    apply in_map_iff in Hx as (y & <- & _). discriminate.
  - eapply Hdraw; [ exact building_on_canvas | exact Hb ].
  - eapply Hdraw; [ | exact Hc ].
    intros g' (cx & cy & col & l & _ & _ & _ & _ & ->).
    constructor; [ reflexivity | ].
    apply Forall_forall. intros x Hx.
    apply in_map_iff in Hx as (j & <- & _). reflexivity.
  - eapply Hdraw; [ | exact Hs ].
    intros g' (sx & sy & col & _ & _ & _ & ->).
    constructor; [ reflexivity | ].
    apply Forall_forall. intros x Hx.
    apply in_map_iff in Hx as (j & <- & _). reflexivity.
  - eapply Hdraw; [ | exact Hr ].
    intros g' (rx & ry & _ & _ & ->). repeat constructor.
  - eapply Forall_impl; [ | exact (groups_Forall _ _ _ _ spot_on_glow_layer Hg) ].
    intros x [_ (a & Ha & Hx)] _. right. exists a. auto.
Qed.

Lemma over_none o b : 0 <= b -> over o 0 b = b.
Proof.
  intros Hb. unfold over.
  replace (o * 0 + b * (255 - 0) + 127) with (127 + b * 255) by lia.
  rewrite Z.div_add by lia. reflexivity.
Qed.

Lemma over_near o a b :
  byte_range o -> 0 <= a < 30 -> byte_range b ->
  Z.min o b <= over o a b <= Z.max o b /\ b - a <= over o a b <= b + a.
Proof.
  unfold byte_range, over. intros Ho Ha Hb.
  assert (Hlow : forall v, 255 * v <= o * a + b * (255 - a) + 127 ->
                           v <= (o * a + b * (255 - a) + 127) / 255).
  { intros v Hv. apply Z.div_le_lower_bound; lia. }
  assert (Hup : forall v, o * a + b * (255 - a) + 127 < 255 * (v + 1) ->
                          (o * a + b * (255 - a) + 127) / 255 <= v).
  { intros v Hv. apply Z.lt_succ_r. apply Z.div_lt_upper_bound; lia. }
  repeat split.
  - apply Hlow. nia.
  - apply Hup. nia.
  - apply Hlow. nia.
  - apply Hup. nia.
Qed.

Section Glow.
Context {P : Pillow}.

(** A property of pixels that the image has at (x, y) and that every ink
    laid there has, holds of the painted image at (x, y). *)
Lemma paint_keeps (Q : pixel -> Prop) im cs x y :
  Q (im_pixel im x y) ->
  Forall (fun c => covers c x y = true -> Q (ink c)) cs ->
  Q (im_pixel (paint im cs) x y).
Proof.
  revert im. induction cs as [| c cs IH]; intros im Him Hcs.
  - assumption.
  - inversion Hcs as [| ? ? Hc Hrest]; subst.
    rewrite paint_cons. apply IH; [ | assumption ].
    cbn. destruct (inside im x y); [ | assumption ].
    cbn. destruct (covers c x y); auto.
Qed.

(** X4. Whatever the generator delivers, blending the glow layer over the
    canvas only tints it: at every pixel the red and the blue channel do
    not go down, the green channel moves towards 100, no channel changes
    by more than 29, and the result is opaque. *)
Theorem glow_only_tints (t : nat -> Z) (x y : Z) :
  0 <= x < 512 -> 0 <= y < 512 ->
  exists s',
    draw_stages 512 512 (fresh t) = (Ok tt, s') /\
    let before := im_pixel (paint blank_canvas (img_calls s')) x y in
    let after := im_pixel (composed s') x y in
    red before <= red after <= red before + 29 /\
    blue before <= blue after <= blue before + 29 /\
    green before - 29 <= green after <= green before + 29 /\
    Z.min 100 (green before) <= green after <= Z.max 100 (green before) /\
    alpha after = 255.
Proof.
  intros Hx Hy.
  destruct (render_returns (fresh t)) as (s' & d & _ & E & Hc & _ & Hd).
  cbn [fresh calls app] in Hc.
  exists s'. split; [ exact E | ].
  assert (Hbefore : pixel_ok (im_pixel (paint blank_canvas (img_calls s')) x y)).
  { apply paint_ok.
    - apply image_new_ok. apply opaque_ok; cbv; intuition discriminate.
    - apply on_layer_ok. rewrite Hc. now apply city_trace_ok.
    - rewrite inside_paint. apply inside_iff. cbn. lia. }
  assert (Hglow : faint_glow (im_pixel (paint blank_glow (glow_calls s')) x y)).
  { apply paint_keeps; [ now left | ].
    unfold glow_calls. rewrite Hc.
    apply on_layer_Forall.
    eapply Forall_impl; [ | exact (city_trace_glow d Hd) ].
    intros c H Hl _. exact (H Hl). }
  cbn zeta. unfold composed. cbn [alpha_composite im_pixel].
  set (b := im_pixel (paint blank_canvas (img_calls s')) x y) in *.
  set (g := im_pixel (paint blank_glow (glow_calls s')) x y) in *.
  destruct Hbefore as (Hr & Hg & Hb & _). unfold byte_range in *.
  destruct Hglow as [-> | (a & Ha & ->)]; cbn [composite_pixel red green blue alpha].
  - rewrite !over_none by lia. lia.
  - pose proof (over_near 255 a (red b) ltac:(unfold byte_range; lia) Ha Hr).
    pose proof (over_near 100 a (green b) ltac:(unfold byte_range; lia) Ha Hg).
    pose proof (over_near 255 a (blue b) ltac:(unfold byte_range; lia) Ha Hb).
    lia.
Qed.

End Glow.

Lemma glow_only_tints_witness :
  (0 <= 3 < 512 /\ 0 <= 7 < 512) /\
  exists s',
    draw_stages 512 512 (fresh (fun _ => 0)) = (Ok tt, s') /\
    red (im_pixel (paint (P := Raster.pillow) blank_canvas (img_calls s')) 3 7)
    <= red (im_pixel (composed (P := Raster.pillow) s') 3 7).
Proof.
  split; [ lia | ].
  destruct (glow_only_tints (P := Raster.pillow) (fun _ => 0) 3 7)
    as (s' & E & H & _); [ lia | lia | ].
  exists s'. split; [ exact E | exact (proj1 H) ].
Defined.

(** *** A sign on the canvas *)

Ltac cover_arith :=
  cbn [covers]; unfold in_box;
  rewrite ?andb_true_iff, ?orb_true_iff, ?andb_false_iff, ?orb_false_iff,
          ?Z.leb_le, ?Z.ltb_lt, ?Z.leb_gt, ?Z.ltb_ge;
  lia.

Section Signs.
Context {P : Pillow}.

(** X5. Whatever the generator delivers, once a sign and its three rings
    are drawn, a column that crosses the top edge of the sign away from
    its corners shows, from the outside in: the colour scaled by 0.4 two
    rows above the box, by 0.6 one row above, by 0.8 on the first row of
    the box, the full sign colour on the second row, and on the third row
    what was there before. The sign and all its rings lie inside the
    canvas. *)
Theorem sign_profile :
  emits (neon_sign 512 512)
    (fun _ d => exists sx sy sign_color,
       In sign_color car_colors /\
       48 <= sx - 2 /\ sx + 62 <= 474 /\ 168 <= sy - 2 /\ sy + 22 <= 278 /\
       forall im x,
         same_size im blank_canvas -> sx + 2 <= x <= sx + 58 ->
         let shown := paint im (on_layer draw d) in
         im_pixel shown x (sy - 2) = opaque (ring_color sign_color 2) /\
         im_pixel shown x (sy - 1) = opaque (ring_color sign_color 1) /\
         im_pixel shown x sy = opaque (ring_color sign_color 0) /\
         im_pixel shown x (sy + 1) = opaque sign_color /\
         im_pixel shown x (sy + 2) = im_pixel im x (sy + 2)).
Proof.
  eapply emits_weaken; [ apply neon_sign_emits | ].
  intros [] d (sx & sy & col & Hsx & Hsy & Hcol & ->).
  change (512 / 3) with 170 in Hsy. change (512 / 2) with 256 in Hsy.
  exists sx, sy, col. split; [ exact Hcol | ].
  repeat (split; [ lia | ]).
  intros im x [Hw Hh] Hx. cbn zeta.
  change (range 3) with [0; 1; 2]. cbn [map]. unfold ring_call.
  rewrite !on_layer_draw_cons. change (on_layer draw []) with (@nil draw_call).
  assert (Hin : forall y, 0 <= y < 512 -> inside im x y = true).
  { intros y Hy. apply inside_iff. rewrite Hw, Hh. cbn. lia. }
  set (c0 := Outline sx sy (sx + 60) (sy + 20) (opaque col) 2).
  set (c1 := Outline (sx - 0) (sy - 0) (sx + 60 + 0) (sy + 20 + 0)
                     (opaque (ring_color col 0)) 1).
  set (c2 := Outline (sx - 1) (sy - 1) (sx + 60 + 1) (sy + 20 + 1)
                     (opaque (ring_color col 1)) 1).
  set (c3 := Outline (sx - 2) (sy - 2) (sx + 60 + 2) (sy + 20 + 2)
                     (opaque (ring_color col 2)) 1).
  split; [ | split; [ | split; [ | split ] ] ].
  - apply (paint_last im [c0; c1; c2] c3 [] x (sy - 2));
      [ apply Hin; lia | subst c3; cover_arith | constructor ].
  - apply (paint_last im [c0; c1] c2 [c3] x (sy - 1));
      [ apply Hin; lia | subst c2; cover_arith | ].
    repeat constructor. subst c3. cover_arith.
  - apply (paint_last im [c0] c1 [c2; c3] x sy);
      [ apply Hin; lia | subst c1; cover_arith | ].
    repeat constructor; [ subst c2 | subst c3 ]; cover_arith.
  - apply (paint_last im [] c0 [c1; c2; c3] x (sy + 1));
      [ apply Hin; lia | subst c0; cover_arith | ].
    repeat constructor; [ subst c1 | subst c2 | subst c3 ]; cover_arith.
  - apply paint_untouched.
    repeat constructor; [ subst c0 | subst c1 | subst c2 | subst c3 ];
      cover_arith.
Qed.

End Signs.

(** *** The sky above the city *)

(** Pillow draws an ellipse inside the box it is given. *)
Definition ellipse_within_box (P : Pillow) : Prop :=
  forall x0 y0 x1 y1 x y,
    ellipse_covers x0 y0 x1 y1 x y = true -> in_box x0 y0 x1 y1 x y = true.

Lemma raster_ellipse_within_box : ellipse_within_box Raster.pillow.
Proof.
  intros x0 y0 x1 y1 x y H. cbn in H. unfold Raster.ellipse_px in H.
  now apply andb_true_iff in H.
Qed.

Section Sky.
Context {P : Pillow}.
Hypothesis ellipses_in_box : ellipse_within_box P.

(** Above row 126 a call of the city either misses the pixel or is a rain
    streak. *)
Definition rain_or_miss (x y : Z) (c : layer * draw_call) : Prop :=
  fst c = draw -> covers (snd c) x y = true ->
  ink (snd c) = opaque (100, 150, 200).

Lemma miss_above x0 y0 x1 y1 x y :
  y < y0 -> in_box x0 y0 x1 y1 x y = true -> False.
Proof.
  intros Hy H. unfold in_box in H.
  rewrite !andb_true_iff, !Z.leb_le in H. lia.
Qed.

Lemma building_above x y g :
  y < 126 -> is_building 512 512 g -> Forall (rain_or_miss x y) g.
Proof.
  intros Hy (bx & by_ & bw & r & g_ & b & wins & _ & Hby & _ & _ & -> & Hw).
  change (512 / 3) with 170 in Hby.
  constructor.
  - intros _ Hc. cbn [covers snd] in Hc. exfalso.
    refine (miss_above _ _ _ _ _ _ _ Hc). lia.
  - eapply Forall_impl; [ | exact Hw ].
    intros c (row & col & color & Hrow & _ & _ & ->) _ Hc. cbn [covers snd] in Hc.
    exfalso. refine (miss_above _ _ _ _ _ _ _ Hc). lia.
Qed.

Lemma car_above x y g :
  y < 126 -> is_car 512 512 g -> Forall (rain_or_miss x y) g.
Proof.
  intros Hy (cx & cy & col & l & _ & Hcy & _ & _ & ->).
  change (512 / 4) with 128 in Hcy.
  constructor.
  - intros _ Hc. cbn [covers snd] in Hc. apply ellipses_in_box in Hc. exfalso.
    refine (miss_above _ _ _ _ _ _ _ Hc). lia.
  - apply Forall_forall. intros c Hin.
    apply in_map_iff in Hin as (j & <- & _). intros _ Hc.
    cbn [covers snd] in Hc. apply ellipses_in_box in Hc. exfalso.
    refine (miss_above _ _ _ _ _ _ _ Hc). lia.
Qed.

Lemma sign_above x y g :
  y < 126 -> is_sign 512 512 g -> Forall (rain_or_miss x y) g.
Proof.
  intros Hy (sx & sy & col & _ & Hsy & _ & ->).
  change (512 / 3) with 170 in Hsy.
  constructor.
  - intros _ Hc. cbn [covers snd] in Hc. apply andb_true_iff in Hc as [Hc _]. exfalso.
    refine (miss_above _ _ _ _ _ _ _ Hc). lia.
  - apply Forall_forall. intros c Hin.
    apply in_map_iff in Hin as (glow & <- & Hg). apply In_range in Hg.
    intros _ Hc. cbn [covers snd] in Hc. apply andb_true_iff in Hc as [Hc _]. exfalso.
    refine (miss_above _ _ _ _ _ _ _ Hc). lia.
Qed.

Lemma streak_above x y g :
  is_streak 512 512 g -> Forall (rain_or_miss x y) g.
Proof.
  intros (rx & ry & _ & _ & ->). repeat constructor.
Qed.

Lemma spot_above x y g :
  is_spot 512 512 g -> Forall (rain_or_miss x y) g.
Proof.
  intros (gx & gy & radius & _ & _ & _ & ->).
  apply Forall_forall. intros c Hin.
  apply in_map_iff in Hin as (r & <- & _). intros Hl. discriminate.
Qed.

(** X6. For a Pillow that draws ellipses inside their boxes and whatever
    the generator delivers: buildings, windows, cars, trails and signs
    never reach above row 126, so on rows 0..125 every pixel of the canvas
    (before the glow is blended in) shows either the gradient colour of
    its row or the rain colour (100, 150, 200). *)
Theorem sky_shows_gradient_or_rain (t : nat -> Z) (x y : Z) :
  0 <= x < 512 -> 0 <= y < 126 ->
  exists s',
    draw_stages 512 512 (fresh t) = (Ok tt, s') /\
    (im_pixel (paint blank_canvas (img_calls s')) x y
     = opaque (sky_purple 512 y + 20, 10, sky_blue 512 y) \/
     im_pixel (paint blank_canvas (img_calls s')) x y
     = opaque (100, 150, 200)).
Proof.
  intros Hx Hy.
  destruct (render_returns (fresh t)) as (s' & d & _ & E & Hc & _ & Hd).
  cbn [fresh calls app] in Hc.
  exists s'. split; [ exact E | ].
  destruct Hd as (b & c & s & r & g & -> & Hb & Hcs & Hs & Hr & Hg).
  unfold img_calls. rewrite Hc, on_layer_app, on_layer_sky, paint_app.
  apply (paint_keeps
           (fun p => p = opaque (sky_purple 512 y + 20, 10, sky_blue 512 y) \/
                     p = opaque (100, 150, 200))).
  - left. apply sky_pixel; lia.
  - apply on_layer_Forall.
    assert (Hall : Forall (rain_or_miss x y) (b ++ c ++ s ++ r ++ g)).
    { repeat (apply Forall_app; split).
      - eapply groups_Forall; [ intros g0; apply building_above; lia | exact Hb ].
      - eapply groups_Forall; [ intros g0; apply car_above; lia | exact Hcs ].
      - eapply groups_Forall; [ intros g0; apply sign_above; lia | exact Hs ].
      - eapply groups_Forall; [ intros g0; apply streak_above | exact Hr ].
      - eapply groups_Forall; [ intros g0; apply spot_above | exact Hg ]. }
    eapply Forall_impl; [ | exact Hall ].
    intros k Hk Hl Hcov. right. exact (Hk Hl Hcov).
Qed.

End Sky.

Lemma sky_shows_gradient_or_rain_witness :
  (ellipse_within_box Raster.pillow /\ 0 <= 3 < 512 /\ 0 <= 7 < 126) /\
  exists s',
    draw_stages 512 512 (fresh (fun _ => 0)) = (Ok tt, s') /\
    (im_pixel (paint (P := Raster.pillow) blank_canvas (img_calls s')) 3 7
     = opaque (sky_purple 512 7 + 20, 10, sky_blue 512 7) \/
     im_pixel (paint (P := Raster.pillow) blank_canvas (img_calls s')) 3 7
     = opaque (100, 150, 200)).
Proof.
  split; [ split; [ exact raster_ellipse_within_box | lia ] | ].
  exact (sky_shows_gradient_or_rain (P := Raster.pillow)
           raster_ellipse_within_box (fun _ => 0) 3 7
           ltac:(lia) ltac:(lia)).
Defined.

(** *** A run in which nothing is refused *)

Lemma find_other_file (p q : string) (fs : list (string * image)) :
  p <> q ->
  find (fun f => String.eqb p (fst f))
       (filter (fun f => negb (String.eqb q (fst f))) fs)
  = find (fun f => String.eqb p (fst f)) fs.
Proof.
  intros Hpq. induction fs as [| [name im] fs IH]; [ reflexivity | ].
  cbn [filter find fst].
  destruct (String.eqb_spec q name) as [<- | Hq]; cbn [negb].
  - destruct (String.eqb_spec p q) as [-> | _]; [ congruence | exact IH ].
  - cbn [find fst]. destruct (String.eqb p name); [ reflexivity | exact IH ].
Qed.

Lemma read_written path im w : read_file path (with_file path im w) = Some im.
Proof.
  unfold read_file, with_file, write_file. cbn [files find fst].
  now rewrite String.eqb_refl.
Qed.

Lemma read_other path q im w :
  path <> q -> read_file path (with_file q im w) = read_file path w.
Proof.
  intros Hne. unfold read_file, with_file, write_file. cbn [files find fst].
  destruct (String.eqb_spec path q) as [-> | _]; [ congruence | ].
  now rewrite find_other_file.
Qed.

Lemma read_logged path o w : read_file path (logged o w) = read_file path w.
Proof. reflexivity. Qed.

Section Success.
Context {P : Pillow}.

Lemma composed_ok s : Forall ink_ok (calls s) -> image_ok (composed s).
Proof.
  intros Hinks. apply alpha_composite_ok.
  - destruct (paint_size blank_canvas (img_calls s)) as [W1 H1].
    destruct (paint_size blank_glow (glow_calls s)) as [W2 H2].
    split; [ now rewrite W1, W2 | now rewrite H1, H2 ].
  - apply paint_ok; [ | now apply on_layer_ok ].
    apply image_new_ok. apply opaque_ok; cbv; intuition discriminate.
  - apply paint_ok; [ | now apply on_layer_ok ].
    apply image_new_ok. cbv. intuition discriminate.
Qed.

Lemma rendered_ok w :
  image_ok (rendered w) /\ same_size (rendered w) blank_canvas.
Proof.
  unfold rendered, painted.
  destruct (render_returns (fresh (w_rng w))) as (s' & d & _ & E & Hc & _ & Hd).
  rewrite E. cbn [snd]. cbn [fresh calls app] in Hc. split.
  - apply gaussian_blur_ok. apply composed_ok. rewrite Hc.
    now apply city_trace_ok.
  - destruct (gaussian_blur_size 0.5 (composed s')) as [Hw Hh].
    destruct (composed_size s') as [Hw' Hh'].
    split; [ now rewrite Hw | now rewrite Hh ].
Qed.

(** X7. When the directory and the two files can be written, the entry
    point returns normally; it has printed exactly the start line, the two
    lines of the saved files, the success line and the list of the two
    paths; the base file holds the rendered image and the enhanced file
    its sharpened variant, both 512 x 512 with all channels in 0..255; and
    every other file on the disk is as it was. *)
Theorem successful_run (w : world) :
  os_refuses w "ai-output" = false ->
  os_refuses w base_file = false ->
  os_refuses w enhanced_file = false ->
  exists w',
    main w = (Ok tt, w') /\
    console w' =
      console w ++
      [Stdout "Creating cyberpunk city artwork...";
       Stdout "Cyberpunk city artwork saved to: ai-output/cyberpunk-city.png";
       Stdout "Enhanced version saved to: ai-output/cyberpunk-city-enhanced.png";
       Stdout "✅ Success! Cyberpunk city artwork created.";
       Stdout "Generated files:";
       Stdout "  - ai-output/cyberpunk-city.png";
       Stdout "  - ai-output/cyberpunk-city-enhanced.png"] /\
    read_file base_file w' = Some (rendered w) /\
    read_file enhanced_file w' = Some (unsharp_mask 1 150 3 (rendered w)) /\
    (image_ok (rendered w) /\ same_size (rendered w) blank_canvas) /\
    (image_ok (unsharp_mask 1 150 3 (rendered w)) /\
     same_size (unsharp_mask 1 150 3 (rendered w)) blank_canvas) /\
    (forall path, path <> base_file -> path <> enhanced_file ->
                  read_file path w' = read_file path w).
Proof.
  intros H0 H1 H2.
  pose proof (main_cases w) as Hmain.
  rewrite create_cases, H0, H1, H2 in Hmain.
  eexists. split; [ exact Hmain | ].
  destruct (rendered_ok w) as [Hok Hsz].
  assert (Hok' : image_ok (unsharp_mask 1 150 3 (rendered w)))
    by now apply unsharp_mask_ok.
  assert (Hsz' : same_size (unsharp_mask 1 150 3 (rendered w)) blank_canvas).
  { destruct (unsharp_mask_size 1 150 3 (rendered w)) as [Hw Hh].
    destruct Hsz as [Hw' Hh']. split; congruence. }
  split; [ | split; [ | split; [ | split; [ | split ] ] ] ].
  - unfold both_saved, base_saved, drawn, started.
    cbn [console logged with_file with_rng with_dir fst snd].
    rewrite <- !app_assoc. reflexivity.
  - rewrite !read_logged. unfold both_saved. rewrite read_logged.
    rewrite read_other by discriminate.
    unfold base_saved. rewrite read_logged. apply read_written.
  - rewrite !read_logged. unfold both_saved. rewrite read_logged.
    apply read_written.
  - split; assumption.
  - split; assumption.
  - intros path Hb He. rewrite !read_logged. unfold both_saved.
    rewrite read_logged, read_other by assumption.
    unfold base_saved. rewrite read_logged, read_other by assumption.
    reflexivity.
Qed.

End Success.

Lemma successful_run_witness :
  (os_refuses quiet_world "ai-output" = false /\
   os_refuses quiet_world base_file = false /\
   os_refuses quiet_world enhanced_file = false) /\
  exists w',
    main (P := Raster.pillow) quiet_world = (Ok tt, w') /\
    read_file base_file w' = Some (rendered (P := Raster.pillow) quiet_world).
Proof.
  split; [ repeat split | ].
  destruct (successful_run (P := Raster.pillow) quiet_world
              eq_refl eq_refl eq_refl) as (w' & Hmain & _ & Hbase & _).
  exists w'. split; assumption.
Defined.

(* ================================================================== *)
(** ** ai-test-output/sd_test.py: the test gradient *)
(* ================================================================== *)

(** A loop whose passes each rewrite the state without failing. *)
Lemma for_each_modify {S A} (xs : list A) (body : A -> ST S unit)
  (f : A -> S -> S) :
  (forall x, In x xs -> forall s, body x s = (Ok tt, f x s)) ->
  forall s, for_each xs body s = (Ok tt, fold_left (fun s x => f x s) xs s).
Proof.
  induction xs as [| x xs IH]; intros Hbody s; [ reflexivity | ].
  cbn [for_each fold_left]. unfold bind.
  rewrite (Hbody x (or_introl eq_refl)).
  apply IH. intros y Hy. apply Hbody. now right.
Qed.

Module SdTest.

(** A numpy array of shape (height, width, 3) and dtype uint8: the three
    bytes at each row and column. *)
Definition ndarray : Type := Z -> Z -> Z * Z * Z.

(** [np.zeros((height, width, 3), dtype=np.uint8)] *)
Definition zeros : ndarray := fun _ _ => (0, 0, 0).

(** What a uint8 cell keeps of an integer. *)
Definition uint8 (v : Z) : Z := v mod 256.

(** [array[i, j] = [r, g, b]] *)
Definition set_item (i j : Z) (v : Z * Z * Z) (a : ndarray) : ndarray :=
  fun i' j' =>
    if (i' =? i) && (j' =? j)
    then let '(r, g, b) := v in (uint8 r, uint8 g, uint8 b)
    else a i' j'.

Definition fill_pixel (width height i j : Z) : ST ndarray unit :=
  q <- truediv (i * 255) height ;;
  r <- int q ;;
  q' <- truediv (j * 255) width ;;
  g <- int q' ;;
  modify (set_item i j (r, g, 128)).

(** Create a test image (gradient) to simulate SD output *)
Definition fill (width height : Z) : ST ndarray unit :=
  for_each (range height) (fun i =>
    for_each (range width) (fun j =>
      fill_pixel width height i j)).

(** [Image.fromarray(array, 'RGB')]: the pixel at (x, y) is the cell at
    row y and column x. *)
Definition fromarray (width height : Z) (a : ndarray) : image :=
  mk_image width height
    (fun x y => let '(r, g, b) := a y x in mk_pixel r g b 255).

End SdTest.

(** On the 512 rows and columns [int(i * 255 / 512)] is the quotient
    [i * 255 / 512]. *)
Definition ramp (i : Z) : Z := i * 255 / 512.

Definition ramp_check (i : Z) : bool :=
  match trunc (PrimFloat.div (float_of_int (i * 255)) (float_of_int 512)) with
  | inl z => z =? ramp i
  | inr _ => false
  end.

Lemma ramp_check_all : forallb ramp_check (range 512) = true.
Proof. vm_compute. reflexivity. Qed.

Lemma ramp_int i :
  0 <= i < 512 ->
  trunc (PrimFloat.div (float_of_int (i * 255)) (float_of_int 512))
  = inl (ramp i).
Proof.
  intros Hi.
  pose proof (proj1 (forallb_forall _ _) ramp_check_all i
                (proj2 (In_range _ _) Hi)) as H.
  unfold ramp_check in H.
  destruct (trunc _) as [z |]; [ | discriminate ].
  apply Z.eqb_eq in H. now subst.
Qed.

Lemma ramp_range i : 0 <= i < 512 -> 0 <= ramp i <= 254.
Proof.
  intros Hi. unfold ramp. split.
  - apply Z.div_pos; lia.
  - apply Z.lt_succ_r. apply Z.div_lt_upper_bound; lia.
Qed.

Lemma fill_pixel_sets i j a :
  0 <= i < 512 -> 0 <= j < 512 ->
  SdTest.fill_pixel 512 512 i j a
  = (Ok tt, SdTest.set_item i j (ramp i, ramp j, 128) a).
Proof.
  intros Hi Hj.
  cbv beta iota delta [SdTest.fill_pixel bind truediv ret int modify Z.eqb].
  rewrite (ramp_int i Hi). cbv beta iota.
  rewrite (ramp_int j Hj). reflexivity.
Qed.

(** A row once its columns [js] are written. *)
Lemma row_written i (js : list Z) (a : SdTest.ndarray) i' j' :
  fold_left (fun a j => SdTest.set_item i j (ramp i, ramp j, 128) a) js a i' j'
  = if (i' =? i) && existsb (Z.eqb j') js
    then (SdTest.uint8 (ramp i), SdTest.uint8 (ramp j'), SdTest.uint8 128)
    else a i' j'.
Proof.
  revert a. induction js as [| j js IH]; intros a; cbn [fold_left existsb].
  - now rewrite andb_false_r.
  - rewrite IH. unfold SdTest.set_item.
    destruct (i' =? i); cbn [andb]; [ | reflexivity ].
    destruct (existsb (Z.eqb j') js); [ now rewrite orb_true_r | ].
    rewrite orb_false_r.
    destruct (Z.eqb_spec j' j) as [-> | _]; reflexivity.
Qed.

Lemma existsb_range n j : existsb (Z.eqb j) (range n) = true <-> 0 <= j < n.
Proof.
  rewrite existsb_exists. split.
  - intros (x & Hx & E). apply Z.eqb_eq in E. subst. now apply In_range.
  - intros H. exists j. split; [ now apply In_range | apply Z.eqb_refl ].
Qed.

(** The array once its rows [is_] are written. *)
Lemma rows_written (is_ : list Z) (a : SdTest.ndarray) i' j' :
  0 <= j' < 512 ->
  fold_left
    (fun a i =>
       fold_left (fun a j => SdTest.set_item i j (ramp i, ramp j, 128) a)
                 (range 512) a)
    is_ a i' j'
  = if existsb (Z.eqb i') is_
    then (SdTest.uint8 (ramp i'), SdTest.uint8 (ramp j'), SdTest.uint8 128)
    else a i' j'.
Proof.
  intros Hj. revert a.
  induction is_ as [| i is_ IH]; intros a; cbn [fold_left existsb].
  - reflexivity.
  - rewrite IH, row_written.
    rewrite (proj2 (existsb_range 512 j') Hj), andb_true_r.
    destruct (existsb (Z.eqb i') is_); [ now rewrite orb_true_r | ].
    rewrite orb_false_r.
    destruct (Z.eqb_spec i' i) as [-> | _]; reflexivity.
Qed.

Lemma fill_runs :
  SdTest.fill 512 512 SdTest.zeros
  = (Ok tt,
     fold_left
       (fun a i =>
          fold_left (fun a j => SdTest.set_item i j (ramp i, ramp j, 128) a)
                    (range 512) a)
       (range 512) SdTest.zeros).
Proof.
  unfold SdTest.fill.
  apply (for_each_modify (range 512) _
           (fun i a =>
              fold_left (fun a j => SdTest.set_item i j (ramp i, ramp j, 128) a)
                        (range 512) a)).
  intros i Hi a. apply In_range in Hi.
  apply (for_each_modify (range 512) _
           (fun j a => SdTest.set_item i j (ramp i, ramp j, 128) a)).
  intros j Hj a'. apply In_range in Hj. now apply fill_pixel_sets.
Qed.

(** X8. The loops of sd_test.py run to the end without an error and give
    every pixel (x, y) of the 512 x 512 image the colour
    (255*y // 512, 255*x // 512, 128): red grows with the row and green with
    the column. Both stay within 0..254, so no value is cut to fit a
    uint8 cell and full red or green never occurs. *)
Theorem test_gradient (x y : Z) :
  0 <= x < 512 -> 0 <= y < 512 ->
  exists a,
    SdTest.fill 512 512 SdTest.zeros = (Ok tt, a) /\
    a y x = (y * 255 / 512, x * 255 / 512, 128) /\
    im_pixel (SdTest.fromarray 512 512 a) x y
    = mk_pixel (y * 255 / 512) (x * 255 / 512) 128 255 /\
    0 <= y * 255 / 512 <= 254 /\ 0 <= x * 255 / 512 <= 254 /\
    (forall x' y', x <= x' -> y <= y' ->
       y * 255 / 512 <= y' * 255 / 512 /\ x * 255 / 512 <= x' * 255 / 512).
Proof.
  intros Hx Hy. eexists. split; [ exact fill_runs | ].
  assert (Hcell :
    fold_left
      (fun a i =>
         fold_left (fun a j => SdTest.set_item i j (ramp i, ramp j, 128) a)
                   (range 512) a)
      (range 512) SdTest.zeros y x
    = (y * 255 / 512, x * 255 / 512, 128)).
  { rewrite rows_written by assumption.
    rewrite (proj2 (existsb_range 512 y) Hy).
    pose proof (ramp_range x Hx). pose proof (ramp_range y Hy).
    unfold SdTest.uint8. rewrite !Z.mod_small by lia. reflexivity. }
  split; [ exact Hcell | ]. split.
  { cbn [SdTest.fromarray im_pixel]. rewrite Hcell. reflexivity. }
  split; [ exact (ramp_range y Hy) | ]. split; [ exact (ramp_range x Hx) | ].
  intros x' y' Hx' Hy'. split; apply Z.div_le_mono; lia.
Qed.

Lemma test_gradient_witness :
  (0 <= 3 < 512 /\ 0 <= 7 < 512) /\
  exists a,
    SdTest.fill 512 512 SdTest.zeros = (Ok tt, a) /\
    a 7 3 = (7 * 255 / 512, 3 * 255 / 512, 128).
Proof.
  split; [ lia | ].
  destruct (test_gradient 3 7) as (a & E & Hcell & _); [ lia | lia | ].
  exists a. split; assumption.
Defined.

(* ================================================================== *)
(** ** generate_cyberpunk_city*.py: the Stable Diffusion scripts *)
(* ================================================================== *)

Module Diffusers.

Inductive torch_dtype : Type := float16 | float32.

(** The calls the scripts make into torch and diffusers, with the
    arguments that differ from one script to the other. *)
Inductive library_call : Type :=
| from_pretrained (model_id : string) (dtype : torch_dtype)
                  (options : list string)
| scheduler_from_config
| pipe_to (device : string)
| enable_xformers_memory_efficient_attention
| enable_attention_slicing
| enable_sequential_cpu_offload
| pipe (prompt negative_prompt : string)
       (width height num_inference_steps : Z) (guidance_scale : float).

(** What the installed libraries and the machine do: whether CUDA is
    there, which calls raise and what, and the image a generation
    returns. The console of the world holds the lines the scripts print
    themselves, not what the libraries write while they run. *)
Record runtime : Type := {
  cuda_is_available : bool;
  cuda_device_count : Z;
  raises : library_call -> option exn;
  generated : library_call -> image
}.

Section Scripts.
Variable rt : runtime.

Definition call (c : library_call) : ST world unit :=
  fun w => match raises rt c with
           | Some e => (Raise e, w)
           | None => (Ok tt, w)
           end.

(** [pipe(...).images[0]] *)
Definition first_image (c : library_call) : ST world image :=
  fun w => match raises rt c with
           | Some e => (Raise e, w)
           | None => (Ok (generated rt c), w)
           end.

Definition model_id : string := "runwayml/stable-diffusion-v1-5".
Definition output_path : string := "ai-output/cyberpunk-city.png".

End Scripts.
End Diffusers.

(** *** generate_cyberpunk_city.py *)
Module GenerateCyberpunkCity.
Import Diffusers.

Section Script.
Variable rt : runtime.

Definition prompt : string :=
  "futuristic city at sunset, cyberpunk style, neon lights, ultra detailed, 8k, masterpiece, high quality, skyscrapers with glowing windows, flying cars, rain reflections".

Definition negative_prompt : string :=
  "blurry, bad quality, low resolution, ugly, deformed, extra limbs".

Definition generate_cyberpunk_city : ST world (option string) :=
  print "Loading Stable Diffusion model..." ;;
  (* Create output directory *)
  makedirs "ai-output" ;;
  try_except
    ((* Load pipeline *)
     call rt (from_pretrained model_id
                (if cuda_is_available rt then float16 else float32) []) ;;
     (* Use DPM solver for faster generation *)
     call rt scheduler_from_config ;;
     (* Move to GPU if available, otherwise CPU *)
     (if cuda_is_available rt
      then (print "Using GPU acceleration" ;; call rt (pipe_to "cuda"))
      else (print "Using CPU (this will be slower)" ;;
            call rt (pipe_to "cpu"))) ;;
     (* Skip xformers if not available *)
     try_except
       (call rt enable_xformers_memory_efficient_attention ;;
        print "Using xformers memory efficient attention")
       (fun _ => print "Xformers not available, using standard attention") ;;
     print ("Generating image: " ++ prompt) ;;
     (* Generate image *)
     image <- first_image rt (pipe prompt negative_prompt 512 512 30 7.5) ;;
     (* Save image *)
     save image output_path ;;
     print ("Image saved to: " ++ output_path) ;;
     ret (Some output_path))
    (fun e =>
       print ("Error generating image: " ++ str e) ;;
       print "This might be due to missing dependencies or insufficient memory" ;;
       ret None).

(** The [__main__] block *)
Definition main : ST world unit :=
  generate_cyberpunk_city ;; ret tt.

End Script.
End GenerateCyberpunkCity.

(** *** generate_cyberpunk_city_cpu.py *)
Module GenerateCyberpunkCityCpu.
Import Diffusers.

Section Script.
Variable rt : runtime.

Definition prompt : string :=
  "futuristic cyberpunk city at sunset, neon lights, skyscrapers, flying cars, detailed architecture, masterpiece".

Definition negative_prompt : string :=
  "blurry, bad quality, low resolution, ugly".

Definition generate_cyberpunk_city : ST world (option string) :=
  print "Loading Stable Diffusion model (CPU mode)..." ;;
  (* Create output directory *)
  makedirs "ai-output" ;;
  try_except
    ((* Force CPU mode to avoid CUDA compatibility issues *)
     print "Using CPU mode (will be slower but more compatible)" ;;
     (* Load pipeline with CPU-friendly settings *)
     call rt (from_pretrained model_id float32 ["low_cpu_mem_usage=True"%string]) ;;
     (* Use DPM solver for faster generation *)
     call rt scheduler_from_config ;;
     (* Force CPU *)
     call rt (pipe_to "cpu") ;;
     (* Enable CPU optimizations *)
     call rt enable_attention_slicing ;;
     call rt enable_sequential_cpu_offload ;;
     print ("Generating image: " ++ prompt) ;;
     print "This may take several minutes on CPU..." ;;
     (* Generate image with reduced settings for CPU *)
     image <- first_image rt (pipe prompt negative_prompt 512 512 20 7.5) ;;
     (* Save image *)
     save image output_path ;;
     print ("Image saved to: " ++ output_path) ;;
     ret (Some output_path))
    (fun e =>
       print ("Error generating image: " ++ str e) ;;
       print_exc e ;;
       ret None).

(** [if result:] for a path or None. *)
Definition truthy (result : option string) : bool :=
  match result with
  | Some path => negb (String.eqb path "")
  | None => false
  end.

(** The [__main__] block; [warnings.filterwarnings] only hides warnings of
    the libraries. *)
Definition main : ST world unit :=
  result <- generate_cyberpunk_city ;;
  if truthy result
  then print "✅ Success! Cyberpunk city image generated."
  else print "❌ Failed to generate image.".

End Script.
End GenerateCyberpunkCityCpu.

(** *** generate_cyberpunk_city_pure_cpu.py *)
Module GenerateCyberpunkCityPureCpu.
Import Diffusers.

Section Script.
Variable rt : runtime.

Definition prompt : string := GenerateCyberpunkCityCpu.prompt.
Definition negative_prompt : string := GenerateCyberpunkCityCpu.negative_prompt.

(** [str(b)] and [str(n)] inside an f-string. *)
Definition str_bool (b : bool) : string := if b then "True" else "False".

Definition str_int (n : Z) : string :=
  DecimalString.NilZero.string_of_int (Z.to_int n).

Definition generate_cyberpunk_city : ST world (option string) :=
  print "Loading Stable Diffusion model (Pure CPU mode)..." ;;
  print "CUDA disabled via environment variables" ;;
  (* Create output directory *)
  makedirs "ai-output" ;;
  try_except
    ((* Verify CUDA is disabled *)
     print ("CUDA available: " ++ str_bool (cuda_is_available rt)) ;;
     print ("Device count: " ++ str_int (cuda_device_count rt)) ;;
     (* Load pipeline with CPU-only settings *)
     call rt (from_pretrained model_id float32
                ["low_cpu_mem_usage=True"%string; "device_map=None"%string]) ;;
     (* Use DPM solver for faster generation *)
     call rt scheduler_from_config ;;
     (* Explicitly move to CPU *)
     call rt (pipe_to "cpu") ;;
     (* Enable CPU optimizations *)
     call rt enable_attention_slicing ;;
     try_except
       (call rt enable_sequential_cpu_offload)
       (fun _ => print "Sequential CPU offload not available, continuing...") ;;
     print ("Generating image: " ++ prompt) ;;
     print "This may take 5-15 minutes on CPU..." ;;
     (* Generate image with reduced settings for CPU *)
     image <- first_image rt (pipe prompt negative_prompt 512 512 15 7.5) ;;
     (* Save image *)
     save image output_path ;;
     print ("Image saved to: " ++ output_path) ;;
     print "Success! Cyberpunk city image generated." ;;
     ret (Some output_path))
    (fun e =>
       print ("Error generating image: " ++ str e) ;;
       print_exc e ;;
       ret None).

(** The [__main__] block; [warnings.filterwarnings] only hides warnings of
    the libraries. *)
Definition main : ST world unit :=
  result <- generate_cyberpunk_city ;;
  if negb (GenerateCyberpunkCityCpu.truthy result)
  then print "Failed to generate image."
  else ret tt.

End Script.
End GenerateCyberpunkCityPureCpu.

(** *** What the scripts do when a step fails *)

(** The console ends with the given lines. *)
Definition ends_with (lines suffix : list output) : Prop :=
  exists before, lines = before ++ suffix.

Lemma ends_with_1 l x : ends_with (l ++ [x]) [x].
Proof. now exists l. Qed.

Lemma ends_with_2 l x y : ends_with ((l ++ [x]) ++ [y]) [x; y].
Proof. exists l. now rewrite <- app_assoc. Qed.

Lemma ends_with_3 l x y z : ends_with (((l ++ [x]) ++ [y]) ++ [z]) [x; y; z].
Proof. exists l. now rewrite <- !app_assoc. Qed.

(** Run a script one step further: unfold the monad, read the fields of
    the worlds built so far, and split on the next thing the runtime or
    the disk decides. *)
Ltac unfold_script :=
  cbv beta iota delta
    [bind try_except ret modify print print_exc makedirs save
     Diffusers.call Diffusers.first_image].

Ltac next_case rt :=
  cbn [os_refuses console files dirs w_rng logged with_dir with_file fst snd];
  match goal with
  | H : os_refuses ?w ?p = _ |- context [os_refuses ?w ?p] => rewrite H
  | |- context [Diffusers.cuda_is_available rt] =>
      destruct (Diffusers.cuda_is_available rt) eqn:?
  | |- context [match Diffusers.raises rt ?c with _ => _ end] =>
      destruct (Diffusers.raises rt c) eqn:?
  | |- context [if os_refuses ?w ?p then _ else _] =>
      destruct (os_refuses w p) eqn:?
  end.

Section GpuScript.
Import Diffusers GenerateCyberpunkCity.
Variable rt : runtime.

(** The steps generation cannot do without. *)
Definition gpu_steps_succeed (w : world) : Prop :=
  raises rt (from_pretrained model_id
               (if cuda_is_available rt then float16 else float32) []) = None /\
  raises rt scheduler_from_config = None /\
  raises rt (pipe_to (if cuda_is_available rt then "cuda" else "cpu")) = None /\
  raises rt (pipe prompt negative_prompt 512 512 30 7.5) = None /\
  os_refuses w output_path = false.

(** X9. Once the output directory exists, generate_cyberpunk_city of
    generate_cyberpunk_city.py never raises. It returns the output path,
    with the generated image in that file and the saved line printed
    last, exactly when loading the model, setting the scheduler, moving
    the pipeline, generating and saving all succeed; whether xformers can
    be enabled plays no part. In every other case it returns None, leaves
    the files as they were and ends on the two error lines. *)
Theorem gpu_generate_outcome (w : world) :
  os_refuses w "ai-output" = false ->
  exists result w',
    generate_cyberpunk_city rt w = (Ok result, w') /\
    ((gpu_steps_succeed w /\
      result = Some output_path /\
      read_file output_path w'
      = Some (generated rt (pipe prompt negative_prompt 512 512 30 7.5)) /\
      ends_with (console w')
        [Stdout "Image saved to: ai-output/cyberpunk-city.png"]) \/
     (~ gpu_steps_succeed w /\
      result = None /\
      files w' = files w /\
      exists e,
        ends_with (console w')
          [Stdout ("Error generating image: " ++ str e);
           Stdout "This might be due to missing dependencies or insufficient memory"])).
Proof.
  intros Hdir. unfold generate_cyberpunk_city, gpu_steps_succeed.
  unfold_script.
  repeat next_case rt;
    eexists _, _; (split; [ reflexivity | ]);
    cbn [os_refuses console files dirs w_rng logged with_dir with_file fst snd];
    first
      [ solve [ left; split; [ repeat split; assumption | ];
                split; [ reflexivity | ];
                split; [ rewrite read_logged; apply read_written
                       | exact (ends_with_1 _ _) ] ]
      | solve [ right; split; [ intros (? & ? & ? & ? & ?); congruence | ];
                split; [ reflexivity | ]; split; [ reflexivity | ];
                eexists; apply ends_with_2 ] ].
Qed.

End GpuScript.

(** A machine without CUDA and without xformers, where everything else
    works; and the same machine when sequential CPU offload fails too. *)
Definition plain_machine : Diffusers.runtime :=
  {| Diffusers.cuda_is_available := false;
     Diffusers.cuda_device_count := 0;
     Diffusers.raises := fun c =>
       match c with
       | Diffusers.enable_xformers_memory_efficient_attention =>
           Some (OSError "No module named 'xformers'")
       | _ => None
       end;
     Diffusers.generated := fun _ => blank_canvas |}.

Definition no_offload_machine : Diffusers.runtime :=
  {| Diffusers.cuda_is_available := false;
     Diffusers.cuda_device_count := 0;
     Diffusers.raises := fun c =>
       match c with
       | Diffusers.enable_sequential_cpu_offload =>
           Some (OSError "accelerate is required")
       | _ => None
       end;
     Diffusers.generated := fun _ => blank_canvas |}.

(** A disk on which nothing can be created. *)
Definition read_only_world : world :=
  mk_world (fun _ => 0) [] [] [] (fun _ => true).

Lemma gpu_generate_outcome_witness :
  os_refuses quiet_world "ai-output" = false /\
  GenerateCyberpunkCity.generate_cyberpunk_city plain_machine quiet_world
  = (Ok (Some Diffusers.output_path),
     snd (GenerateCyberpunkCity.generate_cyberpunk_city
            plain_machine quiet_world)).
Proof.
  split; [ reflexivity | ].
  destruct (gpu_generate_outcome plain_machine quiet_world eq_refl)
    as (result & w' & E & [(_ & -> & _) | (Hn & _)]).
  - rewrite E. reflexivity.
  - exfalso. apply Hn. repeat split.
Defined.

Lemma truthy_output_path :
  GenerateCyberpunkCityCpu.truthy (Some Diffusers.output_path) = true.
Proof. reflexivity. Qed.

Section CpuScript.
Import Diffusers GenerateCyberpunkCityCpu.
Variable rt : runtime.

(** The steps the CPU script cannot do without. *)
Definition cpu_steps_succeed (w : world) : Prop :=
  raises rt (from_pretrained model_id float32
               ["low_cpu_mem_usage=True"%string]) = None /\
  raises rt scheduler_from_config = None /\
  raises rt (pipe_to "cpu") = None /\
  raises rt enable_attention_slicing = None /\
  raises rt enable_sequential_cpu_offload = None /\
  raises rt (pipe prompt negative_prompt 512 512 20 7.5) = None /\
  os_refuses w output_path = false.

(** X10. Once the output directory exists, the main block of
    generate_cyberpunk_city_cpu.py ends without an exception and its
    last line tells what happened: the success line, after the saved
    line and with the generated image in the file, exactly when every
    step succeeded, attention slicing and sequential CPU offload
    included; otherwise the failure line, after the error line and the
    traceback, with the files as they were. *)
Theorem cpu_main_verdict (w : world) :
  os_refuses w "ai-output" = false ->
  exists w',
    main rt w = (Ok tt, w') /\
    ((cpu_steps_succeed w /\
      read_file output_path w'
      = Some (generated rt (pipe prompt negative_prompt 512 512 20 7.5)) /\
      ends_with (console w')
        [Stdout "Image saved to: ai-output/cyberpunk-city.png";
         Stdout "✅ Success! Cyberpunk city image generated."]) \/
     (~ cpu_steps_succeed w /\
      files w' = files w /\
      exists e,
        ends_with (console w')
          [Stdout ("Error generating image: " ++ str e);
           Traceback e;
           Stdout "❌ Failed to generate image."])).
Proof.
  intros Hdir. unfold main, generate_cyberpunk_city, cpu_steps_succeed.
  unfold_script.
  repeat next_case rt;
    rewrite ?truthy_output_path; cbn [truthy];
    eexists; (split; [ reflexivity | ]);
    cbn [os_refuses console files dirs w_rng logged with_dir with_file fst snd];
    first
      [ solve [ left; split; [ repeat split; assumption | ];
                split; [ rewrite !read_logged; apply read_written
                       | exact (ends_with_2 _ _ _) ] ]
      | solve [ right; split; [ intros (? & ? & ? & ? & ? & ? & ?); congruence | ];
                split; [ reflexivity | ];
                eexists; apply ends_with_3 ] ].
Qed.

End CpuScript.

Lemma cpu_main_verdict_witness :
  os_refuses quiet_world "ai-output" = false /\
  exists w',
    GenerateCyberpunkCityCpu.main no_offload_machine quiet_world = (Ok tt, w') /\
    files w' = [].
Proof.
  split; [ reflexivity | ].
  destruct (cpu_main_verdict no_offload_machine quiet_world eq_refl)
    as (w' & E & [((_ & _ & _ & _ & H & _) & _) | (_ & Hf & _)]).
  - discriminate H.
  - exists w'. split; [ exact E | exact Hf ].
Defined.

Section PureCpuScript.
Import Diffusers GenerateCyberpunkCityPureCpu.
Variable rt : runtime.

(** The steps the pure CPU script cannot do without. *)
Definition pure_cpu_steps_succeed (w : world) : Prop :=
  raises rt (from_pretrained model_id float32
               ["low_cpu_mem_usage=True"%string; "device_map=None"%string])
  = None /\
  raises rt scheduler_from_config = None /\
  raises rt (pipe_to "cpu") = None /\
  raises rt enable_attention_slicing = None /\
  raises rt (pipe prompt negative_prompt 512 512 15 7.5) = None /\
  os_refuses w output_path = false.

(** X11. Once the output directory exists, the main block of
    generate_cyberpunk_city_pure_cpu.py ends without an exception. When
    every step but sequential CPU offload succeeds the generated image is
    in the file and the run ends on the saved line and the success line;
    a failure of sequential CPU offload only adds a line to the console.
    Otherwise the files are as they were and the run ends on the error
    line, the traceback and the failure line. *)
Theorem pure_cpu_main_verdict (w : world) :
  os_refuses w "ai-output" = false ->
  exists w',
    main rt w = (Ok tt, w') /\
    ((pure_cpu_steps_succeed w /\
      read_file output_path w'
      = Some (generated rt (pipe prompt negative_prompt 512 512 15 7.5)) /\
      ends_with (console w')
        [Stdout "Image saved to: ai-output/cyberpunk-city.png";
         Stdout "Success! Cyberpunk city image generated."] /\
      (raises rt enable_sequential_cpu_offload <> None ->
       In (Stdout "Sequential CPU offload not available, continuing...")
          (console w'))) \/
     (~ pure_cpu_steps_succeed w /\
      files w' = files w /\
      exists e,
        ends_with (console w')
          [Stdout ("Error generating image: " ++ str e);
           Traceback e;
           Stdout "Failed to generate image."])).
Proof.
  intros Hdir. unfold main, generate_cyberpunk_city, pure_cpu_steps_succeed.
  unfold_script.
  repeat next_case rt;
    rewrite ?truthy_output_path; cbn [GenerateCyberpunkCityCpu.truthy negb];
    eexists; (split; [ reflexivity | ]);
    cbn [os_refuses console files dirs w_rng logged with_dir with_file fst snd];
    first
      [ solve [ left; split; [ repeat split; assumption | ];
                split; [ rewrite !read_logged; apply read_written | ];
                split; [ exact (ends_with_2 _ _ _) | ];
                intros Hraise;
                first [ congruence
                      | rewrite !in_app_iff; cbn [In]; tauto ] ]
      | solve [ right; split; [ intros (? & ? & ? & ? & ? & ?); congruence | ];
                split; [ reflexivity | ];
                eexists; apply ends_with_3 ] ].
Qed.

End PureCpuScript.

Lemma pure_cpu_main_verdict_witness :
  os_refuses quiet_world "ai-output" = false /\
  exists w',
    GenerateCyberpunkCityPureCpu.main no_offload_machine quiet_world
    = (Ok tt, w') /\
    read_file Diffusers.output_path w' = Some blank_canvas.
Proof.
  split; [ reflexivity | ].
  destruct (pure_cpu_main_verdict no_offload_machine quiet_world eq_refl)
    as (w' & E & [(_ & Hr & _) | (Hn & _)]).
  - exists w'. split; [ exact E | exact Hr ].
  - exfalso. apply Hn. repeat split.
Defined.

Section NoDirectory.
Import Diffusers.
Variable rt : runtime.

(** X12. In all three Stable Diffusion scripts the output directory is
    made before the try block: when it cannot be made, the OSError leaves
    generate_cyberpunk_city and the main block uncaught, after the opening
    line (two lines in the pure CPU script), with no library call made, no
    error or failure line printed and no file written. *)
Theorem directory_failure_is_not_caught (w : world) :
  os_refuses w "ai-output" = true ->
  GenerateCyberpunkCity.main rt w
  = (Raise (OSError "ai-output"),
     logged (Stdout "Loading Stable Diffusion model...") w) /\
  GenerateCyberpunkCityCpu.main rt w
  = (Raise (OSError "ai-output"),
     logged (Stdout "Loading Stable Diffusion model (CPU mode)...") w) /\
  GenerateCyberpunkCityPureCpu.main rt w
  = (Raise (OSError "ai-output"),
     logged (Stdout "CUDA disabled via environment variables")
       (logged (Stdout "Loading Stable Diffusion model (Pure CPU mode)...") w)).
Proof.
  intros Hdir.
  unfold GenerateCyberpunkCity.main, GenerateCyberpunkCityCpu.main,
    GenerateCyberpunkCityPureCpu.main,
    GenerateCyberpunkCity.generate_cyberpunk_city,
    GenerateCyberpunkCityCpu.generate_cyberpunk_city,
    GenerateCyberpunkCityPureCpu.generate_cyberpunk_city.
  unfold_script.
  cbn [os_refuses console files dirs w_rng logged with_dir with_file fst snd].
  rewrite Hdir. repeat split.
Qed.

End NoDirectory.

Lemma directory_failure_is_not_caught_witness :
  os_refuses read_only_world "ai-output" = true /\
  fst (GenerateCyberpunkCityCpu.main plain_machine read_only_world)
  = Raise (OSError "ai-output").
Proof.
  split; [ reflexivity | ].
  rewrite (proj1 (proj2 (directory_failure_is_not_caught
                           plain_machine read_only_world eq_refl))).
  reflexivity.
Defined.

(* ================================================================== *)
(** ** test-ai-generation.py: the pipeline check *)
(* ================================================================== *)

Module TestAiGeneration.

(** What a run leaves behind: the lines it printed, the directories it
    made and the text files it wrote. *)
Record disk : Type := mk_disk {
  printed : list string;
  made : list string;
  texts : list (string * string)
}.

(** What the script asks of the machine: the path separator, absolute
    paths, the paths the operating system will not create or write, and
    what running a command gives, a return code or an exception. *)
Record platform : Type := {
  sep : string;
  abspath : string -> string;
  refuses : string -> bool;
  subprocess : list string -> outcome Z
}.

(** The line feed of [\n]. *)
Definition nl : string := String "010" EmptyString.

(** [s * n] *)
Fixpoint str_mul (s : string) (n : nat) : string :=
  match n with
  | O => EmptyString
  | S k => s ++ str_mul s k
  end.

Definition print (text : string) : ST disk unit :=
  modify (fun d => mk_disk (printed d ++ [text]) (made d) (texts d)).

Section Script.
Variable pf : platform.

(** [os.makedirs(path, exist_ok=True)] *)
Definition makedirs (path : string) : ST disk unit :=
  fun d =>
    if refuses pf path then (Raise (OSError path), d)
    else (Ok tt,
          mk_disk (printed d)
            (if existsb (String.eqb path) (made d) then made d
             else path :: made d)
            (texts d)).

(** [os.path.join(a, b)] for a relative [b] and an [a] that does not end
    in a separator. *)
Definition path_join (a b : string) : string := a ++ sep pf ++ b.

(** [with open(path, 'w') as f: f.write(content)] *)
Definition write_text (path content : string) : ST disk unit :=
  fun d =>
    if refuses pf path then (Raise (OSError path), d)
    else (Ok tt,
          mk_disk (printed d) (made d)
            ((path, content)
               :: filter (fun f => negb (String.eqb path (fst f))) (texts d))).

(** [subprocess.run(args, capture_output=True, text=True).returncode] *)
Definition subprocess_run (args : list string) : ST disk Z :=
  fun d => (subprocess pf args, d).

Definition output_dir : string := "ai-demo-output".

(** The triple-quoted text, line by line. *)
Definition script_content : string :=
  String.concat nl
    [EmptyString;
     "Title: AI System Demo";
     "Duration: 10 seconds";
     EmptyString;
     "NARRATION:";
     "Welcome to your new AI generation system. ";
     "You can now create unlimited images and videos locally.";
     "No API costs, complete privacy, and full creative control.";
     "Your RTX 5070 makes this all possible.";
     EmptyString;
     "VISUALS:";
     "Scene 1: Futuristic AI laboratory";
     "Scene 2: Neural network visualization  ";
     "Scene 3: Generated artwork gallery";
     "Scene 4: Success celebration";
     EmptyString]%string.

Definition script_path : string := path_join output_dir "demo_script.txt".

Definition sd_test_prompt : string :=
  "futuristic AI laboratory, high tech, blue lighting, 8k".

Definition voice_text : string := "Welcome to your AI generation system".

(** The module body, top to bottom. *)
Definition script : ST disk unit :=
  print (str_mul "=" 60) ;;
  print "AI GENERATION SYSTEM - COMPLETE PIPELINE TEST" ;;
  print (str_mul "=" 60) ;;
  print EmptyString ;;
  (* Create output directory *)
  makedirs output_dir ;;
  (* Step 1: Create a test script *)
  print "[1/5] Creating test script..." ;;
  write_text script_path script_content ;;
  print ("[OK] Script created: " ++ script_path) ;;
  (* Step 2: Test image generation readiness *)
  print (nl ++ "[2/5] Testing Stable Diffusion...") ;;
  print ("Ready to generate: '" ++ sd_test_prompt ++ "'") ;;
  print "[OK] Stable Diffusion is configured" ;;
  (* Step 3: Test voice synthesis readiness *)
  print (nl ++ "[3/5] Testing ElevenLabs...") ;;
  print ("Ready to synthesize: '" ++ voice_text ++ "'") ;;
  print "[OK] ElevenLabs is configured" ;;
  (* Step 4: Test video generation readiness *)
  print (nl ++ "[4/5] Testing Stable Video Diffusion...") ;;
  print "Ready to animate images into video" ;;
  print "[OK] Stable Video Diffusion is configured" ;;
  (* Step 5: Test FFmpeg *)
  print (nl ++ "[5/5] Testing FFmpeg...") ;;
  try_except
    (returncode <- subprocess_run ["C:\ffmpeg\bin\ffmpeg.exe"; "-version"]%string ;;
     if returncode =? 0
     then print "[OK] FFmpeg is installed and working"
     else print "[ERROR] FFmpeg error")
    (fun _ => print "[ERROR] FFmpeg not found") ;;
  (* Summary *)
  print (nl ++ str_mul "=" 60) ;;
  print "SYSTEM STATUS SUMMARY" ;;
  print (str_mul "=" 60) ;;
  print EmptyString ;;
  print "[OK] Stable Diffusion:      READY (Image Generation)" ;;
  print "[OK] Stable Video Diffusion: READY (Video Generation)" ;;
  print "[OK] ElevenLabs:            READY (Voice Synthesis)" ;;
  print "[OK] FFmpeg:                READY (Video Assembly)" ;;
  print "[OK] Video Agents:          READY (5 agents configured)" ;;
  print EmptyString ;;
  print "[SUCCESS] SYSTEM FULLY OPERATIONAL!" ;;
  print EmptyString ;;
  print "Available Commands:" ;;
  print "  /visual --sd 'your prompt'      # Generate image" ;;
  print "  /visual --svd image.png         # Generate video" ;;
  print "  /voice 'text to speak'          # Generate voice" ;;
  print "  /video 'create demo video'      # Full pipeline" ;;
  print EmptyString ;;
  print "Next Steps:" ;;
  print "1. Generate your first image: /visual --sd 'fantasy dragon'" ;;
  print "2. Download models from https://civitai.com" ;;
  print "3. Start WebUI: C:\Projects\scripts\launch-sd.bat" ;;
  print EmptyString ;;
  print ("Test complete! Output in: " ++ abspath pf output_dir).

End Script.

(** The text of a file on the disk. *)
Definition read_text (path : string) (d : disk) : option string :=
  option_map snd (find (fun f => String.eqb path (fst f)) (texts d)).

(** The same platform with another answer from the command. *)
Definition with_subprocess (answer : outcome Z) (pf : platform) : platform :=
  {| sep := sep pf; abspath := abspath pf; refuses := refuses pf;
     subprocess := fun _ => answer |}.

End TestAiGeneration.

Section PipelineCheck.
Import TestAiGeneration.
Variable pf : platform.

(** The platform with nothing refused and a working command: the run
    whose lines the others are compared with. *)
Definition willing : platform :=
  {| sep := sep pf; abspath := abspath pf; refuses := fun _ => false;
     subprocess := fun _ => Ok 0 |}.

Definition reference_lines : list string :=
  printed (snd (script willing (mk_disk [] [] []))).

Lemma read_text_written path content d :
  read_text path
    (mk_disk (printed d) (made d)
       ((path, content)
          :: filter (fun f => negb (String.eqb path (fst f))) (texts d)))
  = Some content.
Proof. unfold read_text. cbn. now rewrite String.eqb_refl. Qed.

(** X13. When the output directory and the script file can be written,
    test-ai-generation.py runs to the end whatever the FFmpeg command
    does, and the answer of the command changes one printed line only:
    the working line for return code 0, the error line for any other
    code, the not-found line when running it raises. Everything printed
    before and after is the same in all three cases, and what comes
    after still reports FFmpeg as READY and the system as fully
    operational. The script file holds the demo text. *)
Theorem summary_ignores_the_probe (d : disk) :
  refuses pf output_dir = false ->
  refuses pf (script_path pf) = false ->
  exists before after,
    In "[OK] FFmpeg:                READY (Video Assembly)"%string after /\
    In "[SUCCESS] SYSTEM FULLY OPERATIONAL!"%string after /\
    forall answer, exists line d',
      script (with_subprocess answer pf) d = (Ok tt, d') /\
      printed d' = printed d ++ before ++ [line] ++ after /\
      read_text (script_path pf) d' = Some script_content /\
      line = match answer with
             | Ok code => if code =? 0
                          then "[OK] FFmpeg is installed and working"%string
                          else "[ERROR] FFmpeg error"%string
             | Raise _ => "[ERROR] FFmpeg not found"%string
             end.
Proof.
  intros Hdir Hfile.
  exists (firstn 16 reference_lines), (skipn 17 reference_lines).
  split; [ vm_compute; repeat (first [ left; reflexivity | right ]) | ].
  split; [ vm_compute; repeat (first [ left; reflexivity | right ]) | ].
  intros answer.
  unfold script, makedirs, write_text, subprocess_run.
  change (script_path (with_subprocess answer pf)) with (script_path pf).
  change (refuses (with_subprocess answer pf)) with (refuses pf).
  change (abspath (with_subprocess answer pf)) with (abspath pf).
  change (subprocess (with_subprocess answer pf))
    with (fun _ : list string => answer).
  rewrite Hdir, Hfile.
  cbv beta iota delta
    [bind try_except ret modify print printed made texts].
  destruct answer as [code | e]; [ destruct (code =? 0) | ];
    cbv beta iota;
    (eexists _, _; split; [ reflexivity | ]);
    (split; [ | split; [ apply read_text_written | reflexivity ] ]);
    cbn [printed]; rewrite <- !app_assoc; f_equal.
Qed.

End PipelineCheck.

(** A machine with POSIX paths on which FFmpeg is not installed. *)
Definition posix : TestAiGeneration.platform :=
  {| TestAiGeneration.sep := "/";
     TestAiGeneration.abspath := fun p => ("/home/user/" ++ p)%string;
     TestAiGeneration.refuses := fun _ => false;
     TestAiGeneration.subprocess := fun _ => Raise (OSError "No such file") |}.

Lemma summary_ignores_the_probe_witness :
  (TestAiGeneration.refuses posix TestAiGeneration.output_dir = false /\
   TestAiGeneration.refuses posix (TestAiGeneration.script_path posix)
   = false) /\
  exists d',
    TestAiGeneration.script posix (TestAiGeneration.mk_disk [] [] [])
    = (Ok tt, d') /\
    In "[ERROR] FFmpeg not found"%string (TestAiGeneration.printed d') /\
    In "[OK] FFmpeg:                READY (Video Assembly)"%string
       (TestAiGeneration.printed d').
Proof.
  split; [ split; reflexivity | ].
  destruct (summary_ignores_the_probe posix (TestAiGeneration.mk_disk [] [] [])
              eq_refl eq_refl)
    as (before & after & Hready & _ & Hrun).
  destruct (Hrun (Raise (OSError "No such file")))
    as (line & d' & E & Hprinted & _ & Hline).
  exists d'. split; [ exact E | ].
  rewrite Hprinted, Hline. cbn [TestAiGeneration.printed app].
  split; apply in_or_app; right; [ left; reflexivity | right; exact Hready ].
Defined.
